(** * Adverse Event Checker (app.py): a shallow embedding and its properties

    The script extracts medication and symptom mentions from a text with two
    regular expressions, asks a remote service for the adverse events of each
    medication and reports the symptoms that are among them.

    Modelling decisions, in one place:
    - the script is modelled on texts of the code points U+0000..U+00FF: a
      Python [str] is then a [string], and [str.lower] and the [\w] class
      of [re] are tabulated for exactly that range, as CPython 3 computes
      them.  Beyond that range [str.lower] can lengthen a text and move a
      word boundary, so the extractor is modelled a second time over all
      code points (module [Unicode]), with the two tables as parameters;
      the statements on what [str.lower] does to the words of a text are
      made there, and the two models agree below U+0100;
    - [str.capitalize] takes two characters of the range out of it (see
      [title_char]); the statements mention it without evaluating it on
      such a term;
    - [set(...)] is a [gset string], [list(set(...))] its [elements]; Python
      leaves the order of that list unspecified, and nothing below relies on
      the order [elements] happens to choose;
    - a caught exception is a value of [exn]; code inside [try] lives in the
      [result] monad and the [except] clause folds it back;
    - Streamlit calls and the HTTP request append to a log of [event]s, in
      program order, through a small state monad. *)

From Stdlib Require Import ZArith NArith Ascii Lia.
From Stdlib.Strings Require Import Byte.
From stdpp Require Import base list strings gmap sets.

(** ** Python strings over the code points below 256 *)

Module PyStr.

Definition code (c : ascii) : N := N_of_ascii c.

Definition between (lo hi n : N) : bool := ((lo <=? n) && (n <=? hi))%N.

(** Characters with a lowercase mapping: A-Z, and the accented capitals
    U+00C0..U+00DE without the multiplication sign U+00D7. *)
Definition is_upper (c : ascii) : bool :=
  between 65 90 (code c) || between 192 214 (code c)
  || between 216 222 (code c).

Definition lower_char (c : ascii) : ascii :=
  if is_upper c then ascii_of_N (code c + 32) else c.

(** [s.lower()] *)
Fixpoint lower (s : string) : string :=
  match s with
  | EmptyString => EmptyString
  | String c rest => String (lower_char c) (lower rest)
  end.

(** Characters with a one-character title-case mapping inside the range:
    a-z and U+00E0..U+00FE without the division sign U+00F7. *)
Definition has_upper (c : ascii) : bool :=
  between 97 122 (code c) || between 224 246 (code c)
  || between 248 254 (code c).

(** Title case of the first character of [capitalize].  The sharp s
    (U+00DF) becomes "Ss".  The micro sign and y-diaeresis have their
    capitals above U+00FF and are kept as they are: only the text shown
    for such a term is affected, never a lookup of a vocabulary term. *)
Definition title_char (c : ascii) : string :=
  if has_upper c then String (ascii_of_N (code c - 32)) EmptyString
  else if (code c =? 223)%N then "Ss"
  else String c EmptyString.

(** [s.capitalize()] *)
Definition capitalize (s : string) : string :=
  match s with
  | EmptyString => EmptyString
  | String c rest => title_char c +:+ lower rest
  end.

(** The class [\w] of a [str] pattern: alphanumeric or underscore. *)
Definition is_word (c : ascii) : bool :=
  let n := code c in
  between 48 57 n || between 65 90 n || (n =? 95)%N || between 97 122 n
  || (n =? 170)%N || between 178 179 n || (n =? 181)%N
  || between 185 186 n || between 188 190 n || between 192 214 n
  || between 216 246 n || between 248 255 n.

(** Word-ness of the character at a position that may be outside the
    text: [None] is the start or the end of the text. *)
Definition word_at (c : option ascii) : bool :=
  match c with Some c => is_word c | None => false end.

(** [\b] between two neighbouring positions. *)
Definition boundary (before after : option ascii) : bool :=
  xorb (word_at before) (word_at after).

Definition head (s : string) : option ascii :=
  match s with EmptyString => None | String c _ => Some c end.

Fixpoint last (s : string) : option ascii :=
  match s with
  | EmptyString => None
  | String c EmptyString => Some c
  | String _ rest => last rest
  end.

(** What is left of [s] after the literal [w], when [s] starts with it. *)
Fixpoint strip_prefix (w s : string) : option string :=
  match w, s with
  | EmptyString, _ => Some s
  | String a w', String b s' =>
      if Ascii.eqb a b then strip_prefix w' s' else None
  | String _ _, EmptyString => None
  end.

(** Truth value of a [str]. *)
Definition truthy (s : string) : bool :=
  match s with EmptyString => false | _ => true end.

(** [sep.join(parts)] *)
Fixpoint join (sep : string) (parts : list string) : string :=
  match parts with
  | [] => EmptyString
  | [p] => p
  | p :: ps => p +:+ sep +:+ join sep ps
  end.

(** The one-character strings a [for] loop over a [str] yields. *)
Fixpoint chars (s : string) : list string :=
  match s with
  | EmptyString => []
  | String c rest => String c EmptyString :: chars rest
  end.

End PyStr.

(** ** The fragment of [re] the two patterns use *)

Module Re.
Import PyStr.

(** A pattern of the shape [\b(w1|...|wn)\b]: one capturing group holding
    an alternation of literals, between two word-boundary assertions. *)
Record pattern := WordAlt { alternatives : list string }.

(** One alternative at the current position: the literal, then [\b]. *)
Definition match_literal (w s : string) : bool :=
  match strip_prefix w s with
  | Some rest => boundary (last w) (head rest)
  | None => false
  end.

(** The alternation: alternatives are tried left to right, and one whose
    closing [\b] fails is abandoned for the next. *)
Fixpoint first_alternative (alts : list string) (s : string)
  : option string :=
  match alts with
  | [] => None
  | w :: alts' =>
      if match_literal w s then Some w else first_alternative alts' s
  end.

(** An attempt at one position: [prev] is the character before it. *)
Definition match_at (p : pattern) (prev : option ascii) (s : string)
  : option string :=
  if boundary prev (head s)
  then first_alternative (alternatives p) s
  else None.

(** The left-to-right scan of [findall].  [skip] counts the characters of
    the last match still to be stepped over: the search resumes where the
    match ended.  The alternatives of the two patterns are not empty, so
    a match is never empty and the position after the last character
    never matches. *)
Fixpoint scan (p : pattern) (prev : option ascii) (skip : nat)
    (s : string) : list string :=
  match s with
  | EmptyString => []
  | String c rest =>
      match skip with
      | S k => scan p (Some c) k rest
      | O =>
          match match_at p prev s with
          | Some w => w :: scan p (Some c) (String.length w - 1) rest
          | None => scan p (Some c) 0 rest
          end
      end
  end.

(** [re.findall(p, text)] for a pattern with one group: the list of what
    the group captured, in the order of the matches. *)
Definition findall (p : pattern) (text : string) : list string :=
  scan p None 0 text.

End Re.

(** ** Python values, exceptions and the effects of the script *)

Module Py.
Import PyStr.

(** An exception caught by [except Exception].  [External] stands for
    whatever a collaborator raises (requests, soundfile, vosk, a JSON
    decoder); the others are raised by the operations below. *)
Inductive exn :=
| External (what : string)
| AttributeError
| TypeError
| KeyError (key : string).

(** The outcome of code inside a [try] block. *)
Definition result (A : Type) : Type := exn + A.

Definition raise {A} (e : exn) : result A := inl e.

#[global] Instance result_ret : MRet result := λ A a, inr a.
#[global] Instance result_bind : MBind result := λ A B f m,
  match m with inl e => inl e | inr a => f a end.

(** A decoded JSON document, as [json.loads] and [response.json()] build
    it.  The fields of an object are the items of the [dict], whose keys
    are distinct.  A number is an integer; a float is represented by an
    integer with the same truth value, which is all the script asks of a
    number. *)
#[warnings="-register-all"]
Inductive json :=
| JNull
| JBool (b : bool)
| JNum (n : Z)
| JStr (s : string)
| JArr (items : list json)
| JObj (fields : list (string * json)).

Fixpoint lookup_field (key : string) (fields : list (string * json))
  : option json :=
  match fields with
  | [] => None
  | (k, v) :: fields' =>
      if String.eqb k key then Some v else lookup_field key fields'
  end.

(** [v.get(key)]: [None] of Python is [JNull]. *)
Definition py_get (v : json) (key : string) : result json :=
  match v with
  | JObj fields => mret (default JNull (lookup_field key fields))
  | _ => raise AttributeError
  end.

(** [v.get(key, dflt)] *)
Definition py_get_default (v : json) (key : string) (dflt : json)
  : result json :=
  match v with
  | JObj fields => mret (default dflt (lookup_field key fields))
  | _ => raise AttributeError
  end.

(** [v[key]] for a string key. *)
Definition py_getitem (v : json) (key : string) : result json :=
  match v with
  | JObj fields =>
      match lookup_field key fields with
      | Some x => mret x
      | None => raise (KeyError key)
      end
  | _ => raise TypeError
  end.

(** What [for item in v] iterates over. *)
Definition py_iter (v : json) : result (list json) :=
  match v with
  | JArr items => mret items
  | JObj fields => mret (map (λ kv, JStr (fst kv)) fields)
  | JStr s => mret (map JStr (chars s))
  | _ => raise TypeError
  end.

(** [v.lower()] *)
Definition py_lower (v : json) : result string :=
  match v with
  | JStr s => mret (lower s)
  | _ => raise AttributeError
  end.

(** Truth value in an [if]. *)
Definition py_truthy (v : json) : bool :=
  match v with
  | JNull => false
  | JBool b => b
  | JNum n => negb (n =? 0)%Z
  | JStr s => truthy s
  | JArr items => match items with [] => false | _ => true end
  | JObj fields => match fields with [] => false | _ => true end
  end.

(** [sep.join(vs)]: every item has to be a [str]. *)
Fixpoint py_strings (vs : list json) : result (list string) :=
  match vs with
  | [] => mret []
  | JStr s :: vs' => ss ← py_strings vs'; mret (s :: ss)
  | _ :: _ => raise TypeError
  end.

Definition py_join (sep : string) (vs : list json) : result string :=
  ss ← py_strings vs; mret (join sep ss).

(** A list comprehension whose element expression may raise: the items
    are evaluated left to right and the first exception ends it. *)
Fixpoint comprehension {A B} (f : A → result B) (l : list A)
  : result (list B) :=
  match l with
  | [] => mret []
  | x :: l' => y ← f x; ys ← comprehension f l'; mret (y :: ys)
  end.

(** The same with an [if] clause that may raise too. *)
Fixpoint comprehension_if {A B} (cond : A → result bool)
    (f : A → result B) (l : list A) : result (list B) :=
  match l with
  | [] => mret []
  | x :: l' =>
      c ← cond x;
      if c : bool
      then y ← f x; ys ← comprehension_if cond f l'; mret (y :: ys)
      else comprehension_if cond f l'
  end.

End Py.

Module Effects.
Import PyStr Py.

(** The query [requests.get] sends: the URL, the three entries of
    [params] and the [timeout] argument. *)
Record request := Request {
  url : string;
  search : string;
  count : string;
  limit : Z;
  timeout : Z
}.

(** What comes back: the status, and what [response.json()] gives. *)
Record response := Response {
  status_code : Z;
  json_body : result json
}.

(** Text handed to Streamlit.  The bullet of a match line is outside the
    modelled code points, so that line has a constructor of its own. *)
Inductive text :=
| Plain (s : string)
| WithError (prefix : string) (e : exn)
| Bullet (s : string).

(** What the script does to the outside, in the order it does it. *)
Inductive event :=
| HttpGet (req : request)
| StSpinner (label : string)
| StSubheader (label : string)
| StExpander (label : string)
| StWrite (args : list text)
| StWarning (msg : text)
| StError (msg : text)
| StSuccess (msg : text).

(** A computation over the remote service [W] that logs its events. *)
Definition prog (W A : Type) : Type := W → A * list event * W.

#[global] Instance prog_ret {W} : MRet (prog W) := λ A a w, (a, [], w).
#[global] Instance prog_bind {W} : MBind (prog W) := λ A B f m w,
  let '(a, l1, w1) := m w in
  let '(b, l2, w2) := f a w1 in
  (b, l1 ++ l2, w2).

Definition emit {W} (e : event) : prog W unit := λ w, (tt, [e], w).

(** [for x in l: body(x)] *)
Fixpoint for_each {W A} (body : A → prog W unit) (l : list A)
  : prog W unit :=
  match l with
  | [] => mret tt
  | x :: l' => _ ← body x; for_each body l'
  end.

Definition value {W A} (r : A * list event * W) : A := fst (fst r).
Definition log {W A} (r : A * list event * W) : list event := snd (fst r).

(** The requests among the events of a log. *)
Definition requests (l : list event) : list request :=
  omap (λ e, match e with HttpGet r => Some r | _ => None end) l.

(** The diagnostics ([st.error], [st.warning]) among the events. *)
Definition diagnostics (l : list event) : list text :=
  omap (λ e, match e with
             | StError m | StWarning m => Some m
             | _ => None
             end) l.

End Effects.

(** ** The program *)

Module App.
Import PyStr Re Py Effects.

Definition MEDICATION_TERMS : list string :=
  ["aspirin"; "lisinopril"; "metformin"; "warfarin"; "atorvastatin";
   "ibuprofen"; "paracetamol"].

Definition SYMPTOM_TERMS : list string :=
  ["cough"; "nausea"; "dizziness"; "rash"; "headache"; "vomiting";
   "fatigue"; "swelling"].

Definition MEDICATION_PATTERN : pattern := WordAlt MEDICATION_TERMS.
Definition SYMPTOM_PATTERN : pattern := WordAlt SYMPTOM_TERMS.

(** [list(set(xs))] *)
Definition list_of_set (xs : list string) : list string :=
  elements (list_to_set xs : gset string).

Definition extract_entities (text : string) : list string * list string :=
  let text := lower text in
  let meds := list_of_set (findall MEDICATION_PATTERN text) in
  let symptoms := list_of_set (findall SYMPTOM_PATTERN text) in
  (meds, symptoms).

Definition dquote : string := String "034"%char EmptyString.

Definition fda_request (medication : string) : request :=
  {| url := "https://api.fda.gov/drug/event.json";
     search := "patient.drug.medicinalproduct:" +:+ dquote
               +:+ medication +:+ dquote;
     count := "patient.reaction.reactionmeddrapt.exact";
     limit := 5;
     timeout := 10 |}.

(** The element expression [item['term'].lower()] of the comprehension. *)
Definition term_of (item : json) : result string :=
  term ← py_getitem item "term"; py_lower term.

(** The two statements after [requests.get] in the [try] block. *)
Definition read_events (resp : response) : result (list string) :=
  if (status_code resp =? 200)%Z then
    body ← json_body resp;
    results ← py_get_default body "results" (JArr []);
    items ← py_iter results;
    comprehension term_of items
  else mret [].

(** What the user gave to the input section: the mode chosen and, for
    audio, the uploaded file if there is one, for text, the text area. *)
Inductive user_input :=
| AudioInput (audio_file : option (list byte))
| TextInput (entered : string).

Section Collaborators.
(** The speech collaborators: [sf.read] on the uploaded bytes gives the
    frames (each as its [tobytes()]) and the sample rate;
    a [KaldiRecognizer] is a state [Rec] with its three methods;
    [json_loads] decodes what the recognizer returns. *)
Context {Rec : Type}.
Variable sf_read : list byte → result (list (list byte) * Z).
Variable KaldiRecognizer : Z → result Rec.
Variable AcceptWaveform : Rec → list byte → result (bool * Rec).
Variable Result : Rec → result (string * Rec).
Variable FinalResult : Rec → result (string * Rec).
Variable json_loads : string → result json.

(** The [for frame in data] loop, [results] being the list so far. *)
Fixpoint feed_frames (recognizer : Rec) (data : list (list byte))
    (results : list json) : result (list json * Rec) :=
  match data with
  | [] => mret (results, recognizer)
  | frame :: data' =>
      '(accepted, recognizer) ← AcceptWaveform recognizer frame;
      if accepted : bool then
        '(out, recognizer) ← Result recognizer;
        res ← json_loads out;
        feed_frames recognizer data' (results ++ [res])
      else feed_frames recognizer data' results
  end.

(** The [try] block up to the [return]: the list [results]. *)
Definition recognition_results (audio : list byte)
  : result (list json) :=
  '(data, samplerate) ← sf_read audio;
  recognizer ← KaldiRecognizer samplerate;
  '(results, recognizer) ← feed_frames recognizer data [];
  '(out, _) ← FinalResult recognizer;
  res ← json_loads out;
  mret (results ++ [res]).

(** The expression of the [return] statement. *)
Definition join_texts (results : list json) : result string :=
  texts ← comprehension_if
            (λ res, t ← py_get res "text"; mret (py_truthy t))
            (λ res, py_get_default res "text" (JStr ""))
            results;
  py_join " " texts.

Definition transcribe_audio (audio : list byte) : string * list event :=
  match recognition_results audio ≫= join_texts with
  | inr transcript => (transcript, [])
  | inl e => ("", [StError (WithError "Transcription failed: " e)])
  end.

(** The remote service: [requests_get] answers a query from the state
    [W] of the outside world, or raises, and leaves a new state. *)
Context {W : Type}.
Variable requests_get : request → W → result response * W.

Definition http_get (req : request) : prog W (result response) :=
  λ w, let '(r, w') := requests_get req w in (r, [HttpGet req], w').

Definition get_fda_events (medication : string) : prog W (list string) :=
  r ← http_get (fda_request medication);
  match r ≫= read_events with
  | inr events => mret events
  | inl e => _ ← emit (StError (WithError "FDA API Error: " e)); mret []
  end.

(** [matches = [s for s in symptoms if s in adverse_events]] *)
Definition cross_reference (symptoms adverse_events : list string)
  : list string :=
  filter (λ s, s ∈ adverse_events) symptoms.

Definition effects_line (adverse_events : list string) : string :=
  join ", " (map capitalize adverse_events).

(** The report on a non-empty list of adverse events. *)
Definition report (symptoms adverse_events : list string)
  : prog W unit :=
  let matches := cross_reference symptoms adverse_events in
  match matches with
  | _ :: _ =>
      _ ← emit (StError (Plain "**Potential adverse effects detected:**"));
      _ ← for_each (λ m, emit (StWrite [Bullet (capitalize m)])) matches;
      _ ← emit (StWrite [Plain "Common FDA-reported effects:"]);
      emit (StWrite [Plain (effects_line adverse_events)])
  | [] =>
      _ ← emit (StSuccess (Plain "No matching adverse effects detected"));
      emit (StWrite [Plain "Known effects:";
                     Plain (effects_line adverse_events)])
  end.

(** The body of [for med in meds]. *)
Definition analyse_medication (symptoms : list string) (med : string)
  : prog W unit :=
  let med := capitalize med in
  _ ← emit (StExpander ("**" +:+ med +:+ "** Analysis"));
  adverse_events ← get_fda_events med;
  match adverse_events with
  | [] => emit (StWrite [Plain "No adverse event data found"])
  | _ :: _ => report symptoms adverse_events
  end.

(** The analysis section of the script, [text] being what the input
    section left in the variable of that name. *)
Definition analysis (text : string) : prog W unit :=
  if truthy text then
    _ ← emit (StSpinner "Analyzing...");
    let '(meds, symptoms) := extract_entities text in
    match meds with
    | [] => emit (StWarning (Plain "No medications detected in the text"))
    | _ :: _ =>
        _ ← emit (StSubheader "Analysis Results");
        for_each (analyse_medication symptoms) meds
    end
  else mret tt.

(** The input section: the text to analyse and what is shown of it. *)
Definition input_section (input : user_input) : string * list event :=
  match input with
  | AudioInput (Some audio_file) =>
      let '(text, shown) := transcribe_audio audio_file in
      (text,
       [StSpinner "Transcribing audio..."] ++ shown ++
       (if truthy text
        then [StSubheader "Transcript"; StWrite [Plain text]]
        else []))
  | AudioInput None => ("", [])
  | TextInput entered => (entered, [])
  end.

(** One run of the script on the user's input.  The widgets that do not
    depend on the input (title, selector, sample) are left out. *)
Definition script (input : user_input) : prog W unit :=
  λ w, let '(text, shown) := input_section input in
       let '(u, l, w') := analysis text w in
       (u, shown ++ l, w').
End Collaborators.

End App.

Import PyStr Re Py Effects App.

(** ** The extractor over all code points

    [str.lower] is not one character to one character everywhere: the
    capital I with a dot above (U+0130) lowers to an i followed by the
    combining dot (U+0307), which is no word character.  What the
    extractor guarantees about the text itself, and not about the lowered
    text, therefore needs strings over all code points.  Here a [str] is
    the list of its code points, and the two tables of the runtime that
    the extractor consults, [str.lower] and the class [\w], are
    parameters: what is proved holds whatever they are. *)

Module Unicode.

(** The code points of a literal of the source. *)
Fixpoint of_string (s : string) : list N :=
  match s with
  | EmptyString => []
  | String c rest => PyStr.code c :: of_string rest
  end.

(** A pattern of the shape [\b(w1|...|wn)\b]. *)
Record pattern := WordAlt { alternatives : list (list N) }.

Definition MEDICATION_PATTERN : pattern :=
  WordAlt (map of_string App.MEDICATION_TERMS).
Definition SYMPTOM_PATTERN : pattern :=
  WordAlt (map of_string App.SYMPTOM_TERMS).

(** What is left of [s] after the literal [w], when [s] starts with it. *)
Fixpoint strip_prefix (w s : list N) : option (list N) :=
  match w, s with
  | [], _ => Some s
  | a :: w', b :: s' => if (a =? b)%N then strip_prefix w' s' else None
  | _ :: _, [] => None
  end.

(** [list(set(xs))] *)
Definition list_of_set (xs : list (list N)) : list (list N) :=
  elements (list_to_set xs : gset (list N)).

Section Runtime.
(** [lower] is [str.lower], [is_word] the class [\w]. *)
Variable lower : list N → list N.
Variable is_word : N → bool.

Definition word_at (c : option N) : bool :=
  match c with Some c => is_word c | None => false end.

(** [\b] between two neighbouring positions. *)
Definition boundary (before after : option N) : bool :=
  xorb (word_at before) (word_at after).

(** One alternative at the current position: the literal, then [\b]. *)
Definition match_literal (w s : list N) : bool :=
  match strip_prefix w s with
  | Some rest => boundary (list.last w) (list.head rest)
  | None => false
  end.

Fixpoint first_alternative (alts : list (list N)) (s : list N)
  : option (list N) :=
  match alts with
  | [] => None
  | w :: alts' =>
      if match_literal w s then Some w else first_alternative alts' s
  end.

Definition match_at (p : pattern) (prev : option N) (s : list N)
  : option (list N) :=
  if boundary prev (list.head s)
  then first_alternative (alternatives p) s
  else None.

(** The scan of [findall], as in [Re.scan]. *)
Fixpoint scan (p : pattern) (prev : option N) (skip : nat) (s : list N)
  : list (list N) :=
  match s with
  | [] => []
  | c :: rest =>
      match skip with
      | S k => scan p (Some c) k rest
      | O =>
          match match_at p prev s with
          | Some w => w :: scan p (Some c) (length w - 1) rest
          | None => scan p (Some c) 0 rest
          end
      end
  end.

Definition findall (p : pattern) (text : list N) : list (list N) :=
  scan p None 0 text.

Definition extract_entities (text : list N)
  : list (list N) * list (list N) :=
  let text := lower text in
  let meds := list_of_set (findall MEDICATION_PATTERN text) in
  let symptoms := list_of_set (findall SYMPTOM_PATTERN text) in
  (meds, symptoms).

(** [w] stands between [pre] and [post] with a [\b] at each of its ends. *)
Definition word_between (pre w post : list N) : Prop :=
  boundary (list.last pre) (list.head (w ++ post)) = true
  ∧ boundary (list.last (pre ++ w)) (list.head post) = true.

(** [w] is present in [text] as a whole word. *)
Definition whole_word (w text : list N) : Prop :=
  ∃ pre post, text = pre ++ w ++ post ∧ word_between pre w post.

(** [w] is present in [text] as a whole word when letter case is
    ignored: a stretch of [text] between two word boundaries lowers to
    [w]. *)
Definition mentioned (w text : list N) : Prop :=
  ∃ pre mid post,
    text = pre ++ mid ++ post ∧ lower mid = w ∧ word_between pre mid post.

(** [w] occurs in [text] only inside longer words: wherever it stands, a
    word character comes right before it or right after it. *)
Definition embedded (w text : list N) : Prop :=
  ∀ pre post, text = pre ++ w ++ post →
    word_at (list.last pre) = true ∨ word_at (list.head post) = true.

(** The same when letter case is ignored. *)
Definition embedded_ignoring_case (w text : list N) : Prop :=
  ∀ pre mid post, text = pre ++ mid ++ post → lower mid = w →
    word_at (list.last pre) = true ∨ word_at (list.head post) = true.

(** Whether [mid], between [pre] and [post], is a mention of [w]. *)
Definition mention_at (w : list N) (split : list N * list N * list N)
  : bool :=
  let '(pre, mid, post) := split in
  bool_decide (lower mid = w)
  && boundary (list.last pre) (list.head (mid ++ post))
  && boundary (list.last (pre ++ mid)) (list.head post).

(** Whether [mid], between [pre] and [post], is [w] in some letter case
    with no word character next to it. *)
Definition free_at (w : list N) (split : list N * list N * list N)
  : bool :=
  let '(pre, mid, post) := split in
  bool_decide (lower mid = w)
  && negb (word_at (list.last pre)) && negb (word_at (list.head post)).
End Runtime.

(** Whether [w] begins and ends with one of the letters a to z, as every
    term of the two vocabularies does. *)
Definition letters_at_ends (w : list N) : bool :=
  match list.head w, list.last w with
  | Some a, Some z => PyStr.between 97 122 a && PyStr.between 97 122 z
  | _, _ => false
  end.

(** The ways to cut a list in two and in three. *)
Definition splits {A} (l : list A) : list (list A * list A) :=
  map (λ i, (take i l, drop i l)) (seq 0 (S (length l))).

Definition splits3 {A} (l : list A) : list (list A * list A * list A) :=
  flat_map (λ '(pre, rest),
              map (λ '(mid, post), (pre, mid, post)) (splits rest))
           (splits l).

(** The tables of CPython 3 for the code points U+0000..U+017F and the
    combining marks U+0300..U+036F.  On a text of such code points
    [str.lower] works character by character.  Below U+0100 the tables
    are those of [PyStr]; from U+0100 to U+017F every code point is a
    letter, and these are the ones that are not their own lowercase. *)
Definition lower_above_latin1 : list (N * list N) :=
  [(256, [257]); (258, [259]); (260, [261]); (262, [263]); (264, [265]);
   (266, [267]); (268, [269]); (270, [271]); (272, [273]); (274, [275]);
   (276, [277]); (278, [279]); (280, [281]); (282, [283]); (284, [285]);
   (286, [287]); (288, [289]); (290, [291]); (292, [293]); (294, [295]);
   (296, [297]); (298, [299]); (300, [301]); (302, [303]);
   (304, [105; 775]);
   (306, [307]); (308, [309]); (310, [311]); (313, [314]); (315, [316]);
   (317, [318]); (319, [320]); (321, [322]); (323, [324]); (325, [326]);
   (327, [328]); (330, [331]); (332, [333]); (334, [335]); (336, [337]);
   (338, [339]); (340, [341]); (342, [343]); (344, [345]); (346, [347]);
   (348, [349]); (350, [351]); (352, [353]); (354, [355]); (356, [357]);
   (358, [359]); (360, [361]); (362, [363]); (364, [365]); (366, [367]);
   (368, [369]); (370, [371]); (372, [373]); (374, [375]); (376, [255]);
   (377, [378]); (379, [380]); (381, [382])]%N.

Fixpoint assoc (c : N) (table : list (N * list N)) : option (list N) :=
  match table with
  | [] => None
  | (k, v) :: table' => if (k =? c)%N then Some v else assoc c table'
  end.

Definition tabulated_lower_char (c : N) : list N :=
  if (c <? 256)%N then [PyStr.code (PyStr.lower_char (ascii_of_N c))]
  else default [c] (assoc c lower_above_latin1).

Definition tabulated_lower (s : list N) : list N :=
  flat_map tabulated_lower_char s.

Definition tabulated_is_word (c : N) : bool :=
  if (c <? 256)%N then PyStr.is_word (ascii_of_N c)
  else PyStr.between 256 383 c.

End Unicode.

(** ** The notions the statements are written with *)

Module Spec.
Import PyStr Re Py Effects App.

(** Strings of word characters, and texts that start with [k] of them. *)
Fixpoint all_word (s : string) : bool :=
  match s with
  | EmptyString => true
  | String c rest => is_word c && all_word rest
  end.

Fixpoint word_prefix (k : nat) (s : string) : bool :=
  match k, s with
  | O, _ => true
  | S k', String c rest => is_word c && word_prefix k' rest
  | S _, EmptyString => false
  end.

(** [w] stands in the text between [pre] and [post] with a [\b] at each
    of its ends. *)
Definition word_between (pre w post : string) : Prop :=
  boundary (last pre) (head (w +:+ post)) = true
  ∧ boundary (last (pre +:+ w)) (head post) = true.

(** [w] is present in [text] as a whole word. *)
Definition whole_word (w text : string) : Prop :=
  ∃ pre post, text = pre +:+ w +:+ post ∧ word_between pre w post.

(** The same up to letter case: some stretch of [text] between two word
    boundaries lowers to [w]. *)
Definition mentioned (w text : string) : Prop :=
  ∃ pre mid post,
    text = pre +:+ mid +:+ post ∧ lower mid = w ∧ word_between pre mid post.

(** Two texts that differ only in letter case: the same length, and at
    each position the same character up to its case. *)
Fixpoint same_up_to_case (s t : string) : bool :=
  match s, t with
  | EmptyString, EmptyString => true
  | String a s', String b t' =>
      Ascii.eqb (lower_char a) (lower_char b) && same_up_to_case s' t'
  | _, _ => false
  end.

(** The remote service answers a query within its [limit]: a readable
    result list has no more items than asked for. *)
Definition honours_limit (req : request) (out : result response) : Prop :=
  ∀ resp body items,
    out = inr resp → json_body resp = inr body →
    py_get_default body "results" (JArr []) = inr (JArr items) →
    (Z.of_nat (length items) ≤ limit req)%Z.

(** The state of the outside world a computation leaves. *)
Definition world {W A} (r : A * list event * W) : W := r.2.

(** What [report] shows, as a list. *)
Definition report_log (symptoms adverse_events : list string) : list event :=
  match cross_reference symptoms adverse_events with
  | [] =>
      [StSuccess (Plain "No matching adverse effects detected");
       StWrite [Plain "Known effects:"; Plain (effects_line adverse_events)]]
  | matches =>
      [StError (Plain "**Potential adverse effects detected:**")]
      ++ map (λ m, StWrite [Bullet (capitalize m)]) matches
      ++ [StWrite [Plain "Common FDA-reported effects:"];
          StWrite [Plain (effects_line adverse_events)]]
  end.

(** What follows the lookup in the body of the loop. *)
Definition after_lookup (symptoms adverse_events : list string)
  : list event :=
  match adverse_events with
  | [] => [StWrite [Plain "No adverse event data found"]]
  | _ :: _ => report_log symptoms adverse_events
  end.

(** The non-empty "text" of one recognition result, if it has one. *)
Definition text_field (res : json) : option string :=
  match res with
  | JObj fields =>
      match lookup_field "text" fields with
      | Some (JStr s) => if truthy s then Some s else None
      | _ => None
      end
  | _ => None
  end.

(** The non-empty "text" fields of the results, in their order. *)
Definition spoken_texts (results : list json) : list string :=
  omap text_field results.

(** A result as a recognizer gives it: an object whose "text", when it
    has one, is a string (or a value that counts as false). *)
Definition recognizer_result (res : json) : Prop :=
  ∃ fields, res = JObj fields
    ∧ ∀ v, lookup_field "text" fields = Some v →
           (∃ s, v = JStr s) ∨ py_truthy v = false.

(** An item of a result list that carries the string [t] as its "term",
    whatever else it carries. *)
Definition term_row (t : string) (item : json) : Prop :=
  ∃ fields, item = JObj fields ∧ lookup_field "term" fields = Some (JStr t).

(** The line that flags a medication. *)
Definition alarm : event :=
  StError (Plain "**Potential adverse effects detected:**").

End Spec.

(** ** What the recognizer is fed and what it gives back *)

Module Recognition.

Section Recognizer.
Context {Rec : Type}.
Variable AcceptWaveform : Rec → list byte → result (bool * Rec).
Variable Result : Rec → result (string * Rec).
Variable json_loads : string → result json.

(** [fed r data results r']: the frames [data], given one after the other
    to the recognizer in state [r], are all taken without an exception and
    leave it in state [r']; [results] are the decoded results of the
    frames that completed an utterance, in the order of the frames. *)
Inductive fed : Rec → list (list byte) → list json → Rec → Prop :=
| fed_end r :
    fed r [] [] r
| fed_silent r r1 frame data results r' :
    AcceptWaveform r frame = inr (false, r1) →
    fed r1 data results r' →
    fed r (frame :: data) results r'
| fed_utterance r r1 r2 frame data out res results r' :
    AcceptWaveform r frame = inr (true, r1) →
    Result r1 = inr (out, r2) →
    json_loads out = inr res →
    fed r2 data results r' →
    fed r (frame :: data) (res :: results) r'.

(** [interrupted r data e]: at some frame of [data], the frames before it
    having been taken, [AcceptWaveform] raises [e], or the frame completes
    an utterance and [Result] or the decoder of its result raises [e]. *)
Inductive interrupted : Rec → list (list byte) → exn → Prop :=
| interrupted_accept r frame data e :
    AcceptWaveform r frame = inl e →
    interrupted r (frame :: data) e
| interrupted_result r r1 frame data e :
    AcceptWaveform r frame = inr (true, r1) →
    Result r1 = inl e →
    interrupted r (frame :: data) e
| interrupted_decoder r r1 r2 frame data out e :
    AcceptWaveform r frame = inr (true, r1) →
    Result r1 = inr (out, r2) →
    json_loads out = inl e →
    interrupted r (frame :: data) e
| interrupted_after_silent r r1 frame data e :
    AcceptWaveform r frame = inr (false, r1) →
    interrupted r1 data e →
    interrupted r (frame :: data) e
| interrupted_after_utterance r r1 r2 frame data out res e :
    AcceptWaveform r frame = inr (true, r1) →
    Result r1 = inr (out, r2) →
    json_loads out = inr res →
    interrupted r2 data e →
    interrupted r (frame :: data) e.
End Recognizer.

(** A recognizer for the examples that raises on the third frame. *)
Definition faulty_accept (n : nat) (frame : list byte)
  : result (bool * nat) :=
  if Nat.eqb n 2 then inl (External "decoder crashed")
  else inr (Nat.odd n, S n).

End Recognition.

(** ** Collaborators for the examples *)

Module Examples.
Import PyStr Re Py Effects App.

(** One item of a result list. *)
Definition row (term : string) : json := JObj [("term", JStr term)].

(** A service that answers every query with the given response. *)
Definition always (resp : response) : request → unit → result response * unit :=
  λ _ w, (inr resp, w).

Definition six_rows : response :=
  Response 200 (inr (JObj [("results",
    JArr [row "NAUSEA"; row "Rash"; row "bleeding"; row "pain";
          row "fatigue"; row "dizziness"])])).

Definition aspirin_rows : response :=
  Response 200 (inr (JObj [("results",
    JArr [row "NAUSEA"; row "Bleeding"; row "rash"])])).

Definition not_found : response :=
  Response 404 (inr (JObj [("error", JObj [("code", JStr "NOT_FOUND")])])).


(** A toy recognizer for the examples: every byte of the upload is a
    frame, every second frame completes an utterance, and each result is
    the word "ok"; the decoder wraps what it is given. *)
Definition toy_read (audio : list byte) : result (list (list byte) * Z) :=
  inr (map (λ b, [b]) audio, 16000%Z).
Definition toy_recognizer (samplerate : Z) : result nat := inr 0.
Definition toy_accept (n : nat) (frame : list byte) : result (bool * nat) :=
  inr (Nat.odd n, S n).
Definition toy_result (n : nat) : result (string * nat) := inr ("ok", n).
Definition toy_final (n : nat) : result (string * nat) := inr ("", n).
Definition toy_loads (s : string) : result json :=
  inr (JObj [("text", JStr s)]).

(** An upload that cannot be decoded. *)
Definition bad_read (audio : list byte) : result (list (list byte) * Z) :=
  inl (External "Format not recognised").

End Examples.

Import Spec Examples.

(** ** Facts about strings *)

Module StrFacts.

Lemma str_app_cons c s t : String c s +:+ t = String c (s +:+ t).
Proof. reflexivity. Qed.

Lemma str_app_nil_l s : "" +:+ s = s.
Proof. reflexivity. Qed.

Lemma str_app_nil_r s : s +:+ "" = s.
Proof. induction s as [|c s IH]; [done|]. by rewrite str_app_cons, IH. Qed.

Lemma str_app_assoc s t u : (s +:+ t) +:+ u = s +:+ t +:+ u.
Proof. induction s as [|c s IH]; [done|]. by rewrite !str_app_cons, IH. Qed.

Lemma str_app_snoc s c t : (s +:+ String c "") +:+ t = s +:+ String c t.
Proof. by rewrite str_app_assoc. Qed.

Lemma last_snoc s c : last (s +:+ String c "") = Some c.
Proof.
  induction s as [|a s IH]; [done|].
  rewrite str_app_cons. simpl. rewrite IH.
  by destruct (s +:+ String c "") eqn:E; [destruct s|].
Qed.

Lemma last_app s t : t ≠ "" → last (s +:+ t) = last t.
Proof.
  intros Ht. induction s as [|a s IH]; [done|].
  rewrite str_app_cons. simpl. rewrite IH.
  destruct (s +:+ t) eqn:E; [|done].
  destruct s; [|done]. by destruct t.
Qed.

Lemma head_app s t : s ≠ "" → head (s +:+ t) = head s.
Proof. by destruct s. Qed.

Lemma strip_prefix_Some w s r : strip_prefix w s = Some r → s = w +:+ r.
Proof.
  revert s. induction w as [|a w IH]; intros s H; simpl in H.
  - by inversion H.
  - destruct s as [|b s]; [done|].
    destruct (Ascii.eqb_spec a b) as [->|]; [|done].
    rewrite str_app_cons. f_equal. by apply IH.
Qed.

Lemma strip_prefix_app w r : strip_prefix w (w +:+ r) = Some r.
Proof.
  induction w as [|a w IH]; [done|].
  rewrite str_app_cons. simpl. by rewrite Ascii.eqb_refl.
Qed.

(** Lowering a character changes neither its class nor, a second time,
    the character: both by inspection of the 256 code points. *)
Lemma is_word_lower_char c : is_word (lower_char c) = is_word c.
Proof. by destruct c as [[] [] [] [] [] [] [] []]. Qed.

Lemma lower_char_idemp c : lower_char (lower_char c) = lower_char c.
Proof. by destruct c as [[] [] [] [] [] [] [] []]. Qed.

Lemma lower_idemp s : lower (lower s) = lower s.
Proof.
  induction s as [|c s IH]; [done|].
  simpl. by rewrite lower_char_idemp, IH.
Qed.

Lemma lower_app s t : lower (s +:+ t) = lower s +:+ lower t.
Proof.
  induction s as [|c s IH]; [done|].
  rewrite str_app_cons. simpl. by rewrite IH.
Qed.

(** A split of the lowered text comes from a split of the text. *)
Lemma lower_split s a b :
  lower s = a +:+ b → ∃ a' b', s = a' +:+ b' ∧ lower a' = a ∧ lower b' = b.
Proof.
  revert s. induction a as [|c a IH]; intros s H.
  - by exists "", s.
  - destruct s as [|d s]; [done|].
    rewrite str_app_cons in H. simpl in H. injection H as Hc Hs.
    destruct (IH _ Hs) as (a' & b' & -> & <- & <-).
    exists (String d a'), b'. by rewrite <- Hc.
Qed.

Lemma word_at_head_lower s : word_at (head (lower s)) = word_at (head s).
Proof. destruct s; [done|]. apply is_word_lower_char. Qed.

Lemma word_at_last_lower s : word_at (last (lower s)) = word_at (last s).
Proof.
  induction s as [|c s IH]; [done|].
  destruct s as [|d s]; [apply is_word_lower_char|]. apply IH.
Qed.

Lemma lower_nonempty s : lower s ≠ "" → s ≠ "".
Proof. by destruct s. Qed.

Lemma length_app s t :
  String.length (s +:+ t) = String.length s + String.length t.
Proof.
  induction s as [|c s IH]; [done|]. rewrite str_app_cons. simpl. by rewrite IH.
Qed.

Lemma app_inv_length s s' t t' :
  String.length s = String.length s' → s +:+ t = s' +:+ t' → s = s' ∧ t = t'.
Proof.
  revert s'. induction s as [|c s IH]; intros [|c' s'] Hl H; try done.
  rewrite !str_app_cons in H. injection H as -> H.
  destruct (IH s') as [-> ->]; [by injection Hl|done|done].
Qed.

Lemma word_prefix_app s t :
  all_word s = true → word_prefix (String.length s) (s +:+ t) = true.
Proof.
  induction s as [|c s IH]; [done|]. simpl.
  intros [-> Hs]%andb_true_iff. by apply IH.
Qed.

(** Two words that start at the same place and each end at a word
    boundary are the same word. *)
Lemma word_end_unique w : ∀ m post post',
  w ≠ "" → m ≠ "" → all_word w = true → all_word m = true →
  w +:+ post = m +:+ post' →
  boundary (last w) (head post) = true →
  boundary (last m) (head post') = true →
  w = m.
Proof.
  induction w as [|a w IH]; intros [|b m] post post' ? ? Hw Hm E Bw Bm;
    try done.
  rewrite !str_app_cons in E. injection E as -> E.
  simpl in Hw, Hm.
  apply andb_true_iff in Hw as [Hb Hw]. apply andb_true_iff in Hm as [_ Hm].
  destruct w as [|a' w], m as [|b' m]; [done| | |].
  - rewrite str_app_nil_l, str_app_cons in E. subst post. simpl in Hm, Bw.
    apply andb_true_iff in Hm as [Hm _]. unfold boundary in Bw. simpl in Bw.
    by rewrite Hb, Hm in Bw.
  - rewrite str_app_nil_l, str_app_cons in E. subst post'. simpl in Hw, Bm.
    apply andb_true_iff in Hw as [Hw _]. unfold boundary in Bm. simpl in Bm.
    by rewrite Hb, Hw in Bm.
  - f_equal. by apply (IH (String b' m) post post').
Qed.

End StrFacts.

(** ** What [findall] returns *)

Module ReFacts.
Import StrFacts.

Lemma first_alternative_Some alts s w :
  first_alternative alts s = Some w → w ∈ alts ∧ match_literal w s = true.
Proof.
  induction alts as [|a alts IH]; [done|]. simpl.
  destruct (match_literal a s) eqn:E.
  - intros [= <-]. split; [left|done].
  - intros H. destruct (IH H). split; [by right|done].
Qed.

Lemma match_literal_true w s :
  match_literal w s = true →
  ∃ post, s = w +:+ post ∧ boundary (last w) (head post) = true.
Proof.
  unfold match_literal. destruct (strip_prefix w s) as [r|] eqn:E; [|done].
  intros H. exists r. split; [by apply strip_prefix_Some|done].
Qed.

Section Scan.
Variable p : pattern.
Hypothesis nonempty : Forall (λ w, w ≠ "") (alternatives p).

Lemma match_at_Some pre s w :
  match_at p (last pre) s = Some w →
  w ∈ alternatives p ∧ ∃ post, s = w +:+ post ∧ word_between pre w post.
Proof.
  unfold match_at. destruct (boundary _ _) eqn:Hb; [|done].
  intros [Hin Hm]%first_alternative_Some.
  destruct (match_literal_true _ _ Hm) as (post & -> & Hb').
  assert (w ≠ "") by (by eapply Forall_forall in nonempty).
  split; [done|]. exists post. split; [done|].
  split; [done|]. by rewrite last_app.
Qed.

Lemma scan_sound s : ∀ pre skip w,
  w ∈ scan p (last pre) skip s →
  w ∈ alternatives p
  ∧ ∃ pre' post, pre +:+ s = pre' +:+ w +:+ post ∧ word_between pre' w post.
Proof.
  induction s as [|c rest IH]; intros pre skip w Hin; simpl in Hin.
  { by apply elem_of_nil in Hin. }
  assert (∀ k, w ∈ scan p (Some c) k rest →
            w ∈ alternatives p
            ∧ ∃ pre' post, pre +:+ String c rest = pre' +:+ w +:+ post
                           ∧ word_between pre' w post) as Hrest.
  { intros k Hk. rewrite <- (last_snoc pre c) in Hk.
    apply IH in Hk. by rewrite str_app_snoc in Hk. }
  destruct skip as [|k]; [|by eapply Hrest].
  destruct (match_at p (last pre) (String c rest)) as [m|] eqn:E;
    [|by eapply Hrest].
  apply elem_of_cons in Hin as [->|Hin]; [|by eapply Hrest].
  apply match_at_Some in E as (Hm & post & -> & Hw).
  split; [done|]. by exists pre, post.
Qed.

Lemma findall_sound text w :
  w ∈ findall p text → w ∈ alternatives p ∧ whole_word w text.
Proof. intros H. by apply (scan_sound text "" 0 w) in H. Qed.

(** When the alternatives are made of word characters, as the terms of
    the two vocabularies are, the scan misses no whole word: a match
    covers one run of word characters, and no word starts inside it. *)
Hypothesis words : Forall (λ w, all_word w = true) (alternatives p).

Lemma first_alternative_complete alts s w :
  w ∈ alts → match_literal w s = true →
  ∃ m, first_alternative alts s = Some m.
Proof.
  induction alts as [|a alts IH]; intros Hin Hm.
  { by apply elem_of_nil in Hin. }
  simpl. destruct (match_literal a s) eqn:E; [by exists a|].
  apply elem_of_cons in Hin as [->|Hin]; [congruence|by apply IH].
Qed.

Lemma alternative_shape w :
  w ∈ alternatives p → w ≠ "" ∧ all_word w = true.
Proof.
  intros Hin. split.
  - by eapply Forall_forall in nonempty.
  - by eapply Forall_forall in words.
Qed.

Lemma scan_complete s : ∀ pre skip w pre' post,
  (skip ≠ 0 → word_at (last pre) = true) →
  word_prefix skip s = true →
  w ∈ alternatives p →
  pre +:+ s = pre' +:+ w +:+ post → word_between pre' w post →
  String.length pre ≤ String.length pre' →
  w ∈ scan p (last pre) skip s.
Proof.
  induction s as [|c rest IH];
    intros pre skip w pre' post Hprev Hskip Hin E Hb Hlen.
  { destruct (alternative_shape w Hin) as [Hne _].
    apply (f_equal String.length) in E. rewrite !length_app in E.
    destruct w; [done|]. simpl in E. lia. }
  destruct (alternative_shape w Hin) as [Hne Hw].
  pose proof Hb as [B1 B2].
  rewrite head_app in B1 by done. rewrite last_app in B2 by done.
  assert (word_at (head w) = true) as Hhead.
  { destruct w; [done|]. simpl in *. by apply andb_true_iff in Hw as [-> _]. }
  destruct (decide (String.length pre = String.length pre')) as [Heq|Hneq].
  - (* the word starts here *)
    destruct (app_inv_length _ _ _ _ Heq E) as [<- Es].
    destruct skip as [|k].
    2:{ unfold boundary in B1. by rewrite Hprev, Hhead in B1. }
    simpl. unfold match_at.
    assert (head (String c rest) = head w) as ->.
    { rewrite Es. by apply head_app. }
    rewrite B1.
    assert (match_literal w (String c rest) = true) as Hm.
    { unfold match_literal. by rewrite Es, strip_prefix_app. }
    destruct (first_alternative_complete _ _ _ Hin Hm) as [m Hfirst].
    rewrite Hfirst. apply first_alternative_Some in Hfirst as [Hmin Hmm].
    destruct (alternative_shape m Hmin) as [Hmne Hmw].
    apply match_literal_true in Hmm as (post' & Em & Bm).
    rewrite Es in Em.
    rewrite (word_end_unique w m post post') by done. left.
  - (* the word starts further on *)
    assert (∀ k, (k ≠ 0 → is_word c = true) → word_prefix k rest = true →
                 w ∈ scan p (Some c) k rest) as Hrest.
    { intros k Hk Hp. rewrite <- (last_snoc pre c).
      apply (IH _ _ _ pre' post); try done.
      - by rewrite last_snoc.
      - by rewrite str_app_snoc.
      - rewrite length_app. simpl. lia. }
    destruct skip as [|k]; simpl.
    + destruct (match_at p (last pre) (String c rest)) as [m|] eqn:Em;
        [|by apply Hrest].
      right. apply match_at_Some in Em as (Hmin & post' & Em & _).
      destruct (alternative_shape m Hmin) as [Hmne Hmw].
      destruct m as [|d m]; [done|].
      rewrite str_app_cons in Em. injection Em as <- ->.
      simpl in Hmw. apply andb_true_iff in Hmw as [Hc Hmw]. simpl.
      rewrite Nat.sub_0_r. apply Hrest; [done|by apply word_prefix_app].
    + simpl in Hskip. apply andb_true_iff in Hskip as [Hc Hp].
      by apply Hrest.
Qed.

Lemma findall_complete text w :
  w ∈ alternatives p → whole_word w text → w ∈ findall p text.
Proof.
  intros Hin (pre & post & -> & Hb).
  apply (scan_complete _ "" 0 w pre post); try done. simpl. lia.
Qed.
End Scan.

(** A whole word of the lowered text is a mention in the text. *)
Lemma whole_word_lower w text :
  w ≠ "" → whole_word w (lower text) → mentioned w text.
Proof.
  intros Hw (pre & post & E & Hb1 & Hb2).
  apply lower_split in E as (pre' & rest & -> & <- & E).
  apply lower_split in E as (mid & post' & -> & <- & <-).
  assert (mid ≠ "") by by apply lower_nonempty.
  exists pre', mid, post'. split; [done|]. split; [done|].
  rewrite <- lower_app in Hb1, Hb2. unfold word_between, boundary in *.
  by rewrite !word_at_head_lower, !word_at_last_lower in Hb1, Hb2.
Qed.

End ReFacts.

(** ** The entity extractor *)

Module ExtractFacts.
Import StrFacts ReFacts.

Lemma elem_of_list_of_set x xs : x ∈ list_of_set xs ↔ x ∈ xs.
Proof. unfold list_of_set. by rewrite elem_of_elements, elem_of_list_to_set. Qed.

Lemma NoDup_list_of_set xs : NoDup (list_of_set xs).
Proof. unfold list_of_set. apply NoDup_elements. Qed.

Lemma medication_terms_nonempty :
  Forall (λ w, w ≠ "") (alternatives MEDICATION_PATTERN).
Proof. by repeat constructor. Qed.

Lemma symptom_terms_nonempty :
  Forall (λ w, w ≠ "") (alternatives SYMPTOM_PATTERN).
Proof. by repeat constructor. Qed.

Lemma terms_disjoint :
  Forall (λ m, m ∉ SYMPTOM_TERMS) MEDICATION_TERMS.
Proof. apply (bool_decide_unpack _). by vm_compute. Qed.

(** Every term of both vocabularies ends in a word character. *)
Lemma terms_end_in_word :
  Forall (λ w, word_at (last w) = true) (MEDICATION_TERMS ++ SYMPTOM_TERMS).
Proof. by repeat constructor. Qed.

Lemma found_mentioned p text w :
  Forall (λ w, w ≠ "") (alternatives p) →
  w ∈ list_of_set (findall p (lower text)) →
  w ∈ alternatives p ∧ whole_word w (lower text) ∧ mentioned w text.
Proof.
  intros Hne Hin. rewrite elem_of_list_of_set in Hin.
  destruct (findall_sound p Hne _ _ Hin) as [Hv Hw].
  split; [done|]. split; [done|]. apply whole_word_lower; [|done].
  by eapply Forall_forall in Hne.
Qed.

Lemma same_up_to_case_lower s t :
  same_up_to_case s t = true → lower s = lower t.
Proof.
  revert t. induction s as [|a s IH]; intros [|b t] H; try done.
  simpl in H. apply andb_true_iff in H as [Hc Hs].
  apply Ascii.eqb_eq in Hc. simpl. by rewrite Hc, (IH t).
Qed.

Lemma medication_terms_words :
  Forall (λ w, all_word w = true) (alternatives MEDICATION_PATTERN).
Proof. by repeat constructor. Qed.

Lemma symptom_terms_words :
  Forall (λ w, all_word w = true) (alternatives SYMPTOM_PATTERN).
Proof. by repeat constructor. Qed.

(** The extractor is exact: it returns the terms of each vocabulary that
    stand in the lowered text as whole words; none is missed. *)
Lemma extract_entities_exact text :
  (∀ m, m ∈ (extract_entities text).1
        ↔ m ∈ MEDICATION_TERMS ∧ whole_word m (lower text))
  ∧ (∀ s, s ∈ (extract_entities text).2
          ↔ s ∈ SYMPTOM_TERMS ∧ whole_word s (lower text)).
Proof.
  split; intros w; simpl; rewrite elem_of_list_of_set; split.
  - apply findall_sound, medication_terms_nonempty.
  - intros [Hv Hw]. apply findall_complete; try done.
    + apply medication_terms_nonempty.
    + apply medication_terms_words.
  - apply findall_sound, symptom_terms_nonempty.
  - intros [Hv Hw]. apply findall_complete; try done.
    + apply symptom_terms_nonempty.
    + apply symptom_terms_words.
Qed.

End ExtractFacts.

Import StrFacts ReFacts ExtractFacts.

(** ** The extractor over all code points: what it returns *)

Module UnicodeFacts.
Import Unicode.

Lemma strip_prefix_Some_codes w : ∀ s r, strip_prefix w s = Some r → s = w ++ r.
Proof.
  induction w as [|a w IH]; intros s r H; simpl in H.
  - by injection H as ->.
  - destruct s as [|b s]; [done|].
    destruct (N.eqb_spec a b) as [->|]; [|done].
    simpl. f_equal. by apply IH.
Qed.

Lemma splits_complete {A} (l pre rest : list A) :
  l = pre ++ rest → (pre, rest) ∈ splits l.
Proof.
  intros ->. unfold splits. apply list_elem_of_fmap.
  exists (length pre). split.
  - by rewrite take_app_length, drop_app_length.
  - apply elem_of_seq. rewrite List.length_app. lia.
Qed.

Lemma splits3_complete {A} (l pre mid post : list A) :
  l = pre ++ mid ++ post → (pre, mid, post) ∈ splits3 l.
Proof.
  intros E. unfold splits3. apply list_elem_of_In, in_flat_map.
  exists (pre, mid ++ post). split.
  - by apply list_elem_of_In, splits_complete.
  - apply list_elem_of_In, list_elem_of_fmap. exists (mid, post).
    split; [done|]. by apply splits_complete.
Qed.

Section Runtime.
Variable lower : list N → list N.
Variable is_word : N → bool.

Lemma first_alternative_Some_codes alts s w :
  first_alternative is_word alts s = Some w →
  w ∈ alts ∧ match_literal is_word w s = true.
Proof.
  induction alts as [|a alts IH]; [done|]. simpl.
  destruct (match_literal is_word a s) eqn:E.
  - intros [= <-]. split; [left|done].
  - intros H. destruct (IH H). split; [by right|done].
Qed.

Lemma match_literal_true_codes w s :
  match_literal is_word w s = true →
  ∃ post, s = w ++ post
          ∧ boundary is_word (list.last w) (list.head post) = true.
Proof.
  unfold match_literal. destruct (strip_prefix w s) as [r|] eqn:E; [|done].
  intros H. exists r. split; [by apply strip_prefix_Some_codes|done].
Qed.

Lemma last_app_nonempty (pre w : list N) :
  w ≠ [] → list.last (pre ++ w) = list.last w.
Proof.
  intros Hw. rewrite list.last_app.
  destruct (list.last w) eqn:E; [done|].
  apply last_None in E. done.
Qed.

Section Scan.
Variable p : pattern.
Hypothesis nonempty : Forall (λ w, w ≠ []) (alternatives p).

Lemma match_at_Some_codes pre s w :
  match_at is_word p (list.last pre) s = Some w →
  w ∈ alternatives p
  ∧ ∃ post, s = w ++ post ∧ word_between is_word pre w post.
Proof.
  unfold match_at. destruct (boundary _ _ _) eqn:Hb; [|done].
  intros [Hin Hm]%first_alternative_Some_codes.
  destruct (match_literal_true_codes _ _ Hm) as (post & -> & Hb').
  assert (w ≠ []) by (by eapply Forall_forall in nonempty).
  split; [done|]. exists post. split; [done|].
  split; [done|]. by rewrite last_app_nonempty.
Qed.

Lemma scan_sound_codes s : ∀ pre skip w,
  w ∈ scan is_word p (list.last pre) skip s →
  w ∈ alternatives p
  ∧ ∃ pre' post, pre ++ s = pre' ++ w ++ post
                 ∧ word_between is_word pre' w post.
Proof.
  induction s as [|c rest IH]; intros pre skip w Hin; simpl in Hin.
  { by apply elem_of_nil in Hin. }
  assert (∀ k, w ∈ scan is_word p (Some c) k rest →
            w ∈ alternatives p
            ∧ ∃ pre' post, pre ++ c :: rest = pre' ++ w ++ post
                           ∧ word_between is_word pre' w post) as Hrest.
  { intros k Hk. rewrite <- (list.last_snoc c pre) in Hk.
    apply IH in Hk. by rewrite <- app_assoc in Hk. }
  destruct skip as [|k]; [|by eapply Hrest].
  destruct (match_at is_word p (list.last pre) (c :: rest)) as [m|] eqn:E;
    [|by eapply Hrest].
  apply elem_of_cons in Hin as [->|Hin]; [|by eapply Hrest].
  apply match_at_Some_codes in E as (Hm & post & -> & Hw).
  split; [done|]. by exists pre, post.
Qed.

Lemma findall_sound_codes text w :
  w ∈ findall is_word p text →
  w ∈ alternatives p ∧ whole_word is_word w text.
Proof. intros H. by apply (scan_sound_codes text [] 0 w) in H. Qed.
End Scan.

Lemma no_mention_by_search w text :
  existsb (mention_at lower is_word w) (splits3 text) = false →
  ¬ mentioned lower is_word w text.
Proof.
  intros Hs (pre & mid & post & E & Hl & B1 & B2).
  apply splits3_complete, list_elem_of_In in E.
  assert (existsb (mention_at lower is_word w) (splits3 text) = true);
    [|congruence].
  apply existsb_exists. exists (pre, mid, post). split; [done|].
  unfold mention_at. by rewrite bool_decide_eq_true_2, B1, B2.
Qed.

Lemma embedded_by_search w text :
  existsb (free_at lower is_word w) (splits3 text) = false →
  embedded_ignoring_case lower is_word w text.
Proof.
  intros Hs pre mid post E Hl.
  apply splits3_complete, list_elem_of_In in E.
  destruct (word_at is_word (list.last pre)) eqn:H1; [by left|].
  destruct (word_at is_word (list.head post)) eqn:H2; [by right|].
  assert (existsb (free_at lower is_word w) (splits3 text) = true);
    [|congruence].
  apply existsb_exists. exists (pre, mid, post). split; [done|].
  unfold free_at. by rewrite bool_decide_eq_true_2, H1, H2.
Qed.
End Runtime.

Lemma embedded_plain_by_search is_word w text :
  existsb (free_at (λ s, s) is_word w) (splits3 text) = false →
  embedded is_word w text.
Proof.
  intros Hs pre post E.
  by apply (embedded_by_search (λ s, s) is_word w text Hs pre w post).
Qed.

Lemma elem_of_list_of_set_codes x xs : x ∈ list_of_set xs ↔ x ∈ xs.
Proof. unfold list_of_set. by rewrite elem_of_elements, elem_of_list_to_set. Qed.

Lemma NoDup_list_of_set_codes xs : NoDup (list_of_set xs).
Proof. unfold list_of_set. apply NoDup_elements. Qed.

Lemma medication_terms_nonempty_codes :
  Forall (λ w, w ≠ []) (alternatives MEDICATION_PATTERN).
Proof. by repeat constructor. Qed.

Lemma symptom_terms_nonempty_codes :
  Forall (λ w, w ≠ []) (alternatives SYMPTOM_PATTERN).
Proof. by repeat constructor. Qed.

Lemma terms_letters_at_ends :
  Forall (λ w, letters_at_ends w = true)
         (map of_string (MEDICATION_TERMS ++ SYMPTOM_TERMS)).
Proof. by repeat constructor. Qed.

Lemma letters_at_ends_word is_word w :
  (∀ c, (97 ≤ c ≤ 122)%N → is_word c = true) →
  letters_at_ends w = true →
  w ≠ [] ∧ word_at is_word (list.head w) = true
  ∧ word_at is_word (list.last w) = true.
Proof.
  intros Hletters. unfold letters_at_ends.
  destruct w as [|a w]; [done|].
  destruct (list.last (a :: w)) as [z|]; [|done]. simpl.
  unfold PyStr.between.
  intros [[H1 H2]%andb_true_iff [H3 H4]%andb_true_iff]%andb_true_iff.
  apply N.leb_le in H1, H2, H3, H4.
  split; [done|]. split; apply Hletters; lia.
Qed.

Lemma tabulated_letters c :
  (97 ≤ c ≤ 122)%N → tabulated_is_word c = true.
Proof.
  intros Hc.
  assert (∃ k, k < 26 ∧ c = N.of_nat (97 + k)) as (k & Hk & ->).
  { exists (N.to_nat c - 97). lia. }
  do 26 (destruct k as [|k]; [reflexivity|]). lia.
Qed.

End UnicodeFacts.

(** ** The two models of the extractor agree below U+0100 *)

Module LatinFacts.
Import Unicode.

Lemma ascii_of_code c : ascii_of_N (code c) = c.
Proof. apply ascii_N_embedding. Qed.

Lemma code_small c : (code c <? 256)%N = true.
Proof. apply N.ltb_lt, N_ascii_bounded. Qed.

Lemma code_inj a b : code a = code b → a = b.
Proof. intros H. by rewrite <- (ascii_of_code a), <- (ascii_of_code b), H. Qed.

Lemma code_eqb a b : (code a =? code b)%N = Ascii.eqb a b.
Proof.
  destruct (Ascii.eqb_spec a b) as [->|Hne]; [apply N.eqb_refl|].
  apply N.eqb_neq. intros H. by apply Hne, code_inj.
Qed.

Lemma of_string_inj s t : of_string s = of_string t → s = t.
Proof.
  revert t. induction s as [|a s IH]; intros [|b t] H; try done.
  injection H as Hc Hs. by rewrite (code_inj _ _ Hc), (IH t Hs).
Qed.

Lemma length_of_string s : length (of_string s) = String.length s.
Proof. induction s as [|c s IH]; [done|]. simpl. by rewrite IH. Qed.

Lemma tabulated_is_word_code c : tabulated_is_word (code c) = is_word c.
Proof. unfold tabulated_is_word. by rewrite code_small, ascii_of_code. Qed.

Lemma tabulated_lower_of_string s :
  tabulated_lower (of_string s) = of_string (lower s).
Proof.
  induction s as [|c s IH]; [done|]. simpl.
  unfold tabulated_lower_char at 1. rewrite code_small, ascii_of_code.
  simpl. f_equal. apply IH.
Qed.

Lemma word_at_code o :
  Unicode.word_at tabulated_is_word (code <$> o) = PyStr.word_at o.
Proof. destruct o; [apply tabulated_is_word_code|done]. Qed.

Lemma head_of_string s : list.head (of_string s) = code <$> PyStr.head s.
Proof. by destruct s. Qed.

Lemma last_of_string s : list.last (of_string s) = code <$> PyStr.last s.
Proof.
  induction s as [|c s IH]; [done|].
  destruct s as [|d s]; [done|]. apply IH.
Qed.

Lemma strip_prefix_of_string w : ∀ s,
  Unicode.strip_prefix (of_string w) (of_string s)
  = of_string <$> PyStr.strip_prefix w s.
Proof.
  induction w as [|a w IH]; intros s; [done|].
  destruct s as [|b s]; [done|]. simpl. rewrite code_eqb.
  destruct (Ascii.eqb a b); [apply IH|done].
Qed.

Lemma match_literal_of_string w s :
  Unicode.match_literal tabulated_is_word (of_string w) (of_string s)
  = Re.match_literal w s.
Proof.
  unfold Unicode.match_literal, Re.match_literal.
  rewrite strip_prefix_of_string.
  destruct (PyStr.strip_prefix w s) as [r|]; [|done]. simpl.
  unfold Unicode.boundary, PyStr.boundary.
  by rewrite last_of_string, head_of_string, !word_at_code.
Qed.

Lemma first_alternative_of_string alts s :
  Unicode.first_alternative tabulated_is_word (map of_string alts)
                            (of_string s)
  = of_string <$> Re.first_alternative alts s.
Proof.
  induction alts as [|w alts IH]; [done|]. simpl.
  rewrite match_literal_of_string.
  by destruct (Re.match_literal w s).
Qed.

Lemma match_at_of_string alts prev s :
  Unicode.match_at tabulated_is_word (Unicode.WordAlt (map of_string alts))
                   (code <$> prev) (of_string s)
  = of_string <$> Re.match_at (Re.WordAlt alts) prev s.
Proof.
  unfold Unicode.match_at, Re.match_at, Unicode.boundary, PyStr.boundary.
  rewrite head_of_string, !word_at_code. simpl.
  destruct (xorb _ _); [apply first_alternative_of_string|done].
Qed.

Lemma scan_of_string alts s : ∀ prev skip,
  Unicode.scan tabulated_is_word (Unicode.WordAlt (map of_string alts))
               (code <$> prev) skip (of_string s)
  = map of_string (Re.scan (Re.WordAlt alts) prev skip s).
Proof.
  induction s as [|c s IH]; intros prev skip; [done|].
  destruct skip as [|k]; [|apply (IH (Some c))].
  cbn [of_string Unicode.scan Re.scan].
  change (code c :: of_string s) with (of_string (String c s)).
  rewrite match_at_of_string.
  destruct (Re.match_at (Re.WordAlt alts) prev (String c s)) as [w|];
    cbn [fmap option_fmap option_map map].
  - rewrite length_of_string. f_equal. apply (IH (Some c)).
  - apply (IH (Some c)).
Qed.

Lemma findall_of_string alts s :
  Unicode.findall tabulated_is_word (Unicode.WordAlt (map of_string alts))
                  (of_string s)
  = map of_string (Re.findall (Re.WordAlt alts) s).
Proof. apply (scan_of_string alts s None 0). Qed.

(** On a text of code points below U+0100, and with the tables of
    CPython, the extractor over all code points returns the terms that
    the extractor over [string] returns. *)
Lemma extract_entities_of_string text :
  (∀ m, of_string m
        ∈ (Unicode.extract_entities tabulated_lower tabulated_is_word
                                    (of_string text)).1
        ↔ m ∈ (App.extract_entities text).1)
  ∧ (∀ s, of_string s
          ∈ (Unicode.extract_entities tabulated_lower tabulated_is_word
                                      (of_string text)).2
          ↔ s ∈ (App.extract_entities text).2).
Proof.
  split; intros w;
    unfold Unicode.extract_entities, App.extract_entities,
           Unicode.MEDICATION_PATTERN, Unicode.SYMPTOM_PATTERN,
           App.MEDICATION_PATTERN, App.SYMPTOM_PATTERN;
    cbn [fst snd];
    rewrite UnicodeFacts.elem_of_list_of_set_codes,
            ExtractFacts.elem_of_list_of_set,
            tabulated_lower_of_string, findall_of_string,
            list_elem_of_fmap.
  all: split; [intros (w' & ->%of_string_inj & H); done|].
  all: intros H; by exists w.
Qed.

End LatinFacts.

(** C1, as the code has it.  Whatever the text, and whatever the tables of
    [str.lower] and [\w] are, [extract_entities] returns medications that
    are terms of the medication vocabulary and symptoms that are terms of
    the symptom vocabulary; each returned term stands as a whole word,
    between two word boundaries, in the lowered text, which is the text
    the patterns are matched against; neither list repeats an entry; and
    the empty text gives two empty lists. *)
Theorem extract_entities_sound
    (lower : list N → list N) (is_word : N → bool) (text : list N) :
  (∀ m, m ∈ (Unicode.extract_entities lower is_word text).1 →
        m ∈ map Unicode.of_string MEDICATION_TERMS
        ∧ Unicode.whole_word is_word m (lower text))
  ∧ (∀ s, s ∈ (Unicode.extract_entities lower is_word text).2 →
          s ∈ map Unicode.of_string SYMPTOM_TERMS
          ∧ Unicode.whole_word is_word s (lower text))
  ∧ NoDup (Unicode.extract_entities lower is_word text).1
  ∧ NoDup (Unicode.extract_entities lower is_word text).2
  ∧ (lower [] = [] → Unicode.extract_entities lower is_word [] = ([], [])).
Proof.
  split; [|split; [|split; [|split]]].
  - intros m Hm. simpl in Hm. rewrite UnicodeFacts.elem_of_list_of_set_codes in Hm.
    by apply (UnicodeFacts.findall_sound_codes is_word Unicode.MEDICATION_PATTERN
                UnicodeFacts.medication_terms_nonempty_codes) in Hm.
  - intros s Hs. simpl in Hs. rewrite UnicodeFacts.elem_of_list_of_set_codes in Hs.
    by apply (UnicodeFacts.findall_sound_codes is_word Unicode.SYMPTOM_PATTERN
                UnicodeFacts.symptom_terms_nonempty_codes) in Hs.
  - apply UnicodeFacts.NoDup_list_of_set_codes.
  - apply UnicodeFacts.NoDup_list_of_set_codes.
  - intros Hl. unfold Unicode.extract_entities. rewrite Hl. by vm_compute.
Qed.

Lemma extract_entities_sound_witness :
  let text := Unicode.of_string "Aspirin, then NAUSEA." in
  Unicode.of_string "nausea"
  ∈ (Unicode.extract_entities Unicode.tabulated_lower
                              Unicode.tabulated_is_word text).2
  ∧ Unicode.whole_word Unicode.tabulated_is_word
                       (Unicode.of_string "nausea")
                       (Unicode.tabulated_lower text)
  ∧ Unicode.extract_entities Unicode.tabulated_lower
                             Unicode.tabulated_is_word []
    = ([], []).
Proof.
  intros text.
  assert (Unicode.of_string "nausea"
          ∈ (Unicode.extract_entities Unicode.tabulated_lower
                                      Unicode.tabulated_is_word text).2) as H.
  { vm_compute. left. }
  split; [exact H|]. split.
  - exact (proj2 (proj1 (proj2
      (extract_entities_sound Unicode.tabulated_lower
                              Unicode.tabulated_is_word text)) _ H)).
  - exact (proj2 (proj2 (proj2 (proj2
      (extract_entities_sound Unicode.tabulated_lower
                              Unicode.tabulated_is_word text)))) eq_refl).
Defined.

(** C1 as stated fails where lowering moves a word boundary.  In the text
    made of the capital I with a dot above (U+0130) and "aspirin", which is
    one word, aspirin is returned, because the lowered text has the
    combining dot before it; yet no stretch of the text between two word
    boundaries is aspirin in any letter case. *)
Lemma aspirin_after_dotted_capital_I :
  let text := 304%N :: Unicode.of_string "aspirin" in
  Unicode.of_string "aspirin"
  ∈ (Unicode.extract_entities Unicode.tabulated_lower
                              Unicode.tabulated_is_word text).1
  ∧ ¬ Unicode.mentioned Unicode.tabulated_lower Unicode.tabulated_is_word
                        (Unicode.of_string "aspirin") text.
Proof.
  split; [vm_compute; left|].
  apply UnicodeFacts.no_mention_by_search. by vm_compute.
Qed.

(** C5, as the code has it.  A vocabulary term that stands only inside
    longer words of the lowered text is not returned, whatever the tables
    of [str.lower] and [\w] are, provided the letters a to z are word
    characters; "aspirino 100mg" gives no medication and "take aspirin
    now" gives exactly the medication aspirin. *)
Theorem word_boundary_property :
  (∀ (lower : list N → list N) (is_word : N → bool) (text w : list N),
     (∀ c, (97 ≤ c ≤ 122)%N → is_word c = true) →
     w ∈ map Unicode.of_string (MEDICATION_TERMS ++ SYMPTOM_TERMS) →
     Unicode.embedded is_word w (lower text) →
     (w ∉ (Unicode.extract_entities lower is_word text).1)
     ∧ (w ∉ (Unicode.extract_entities lower is_word text).2))
  ∧ (Unicode.extract_entities Unicode.tabulated_lower
                              Unicode.tabulated_is_word
                              (Unicode.of_string "aspirino 100mg")).1 = []
  ∧ (Unicode.extract_entities Unicode.tabulated_lower
                              Unicode.tabulated_is_word
                              (Unicode.of_string "take aspirin now")).1
    = [Unicode.of_string "aspirin"].
Proof.
  split; [|by vm_compute].
  intros lower is_word text w Hletters Hw Hemb.
  pose proof UnicodeFacts.terms_letters_at_ends as Hends.
  rewrite Forall_forall in Hends.
  destruct (UnicodeFacts.letters_at_ends_word is_word w Hletters
              (Hends w Hw)) as (Hne & Hhead & Hlast).
  assert (¬ Unicode.whole_word is_word w (lower text)) as Hno.
  { intros (pre & post & E & B1 & B2).
    rewrite list.head_app in B1.
    rewrite UnicodeFacts.last_app_nonempty in B2 by done.
    destruct (list.head w) as [a|] eqn:Ha; [|by destruct w].
    unfold Unicode.boundary in B1, B2. rewrite Hhead in B1.
    rewrite Hlast in B2.
    destruct (Hemb pre post E) as [H|H]; rewrite H in *; done. }
  split; intros Hin; simpl in Hin;
    rewrite UnicodeFacts.elem_of_list_of_set_codes in Hin; apply Hno.
  - by apply (UnicodeFacts.findall_sound_codes is_word Unicode.MEDICATION_PATTERN
                UnicodeFacts.medication_terms_nonempty_codes) in Hin as [_ ?].
  - by apply (UnicodeFacts.findall_sound_codes is_word Unicode.SYMPTOM_PATTERN
                UnicodeFacts.symptom_terms_nonempty_codes) in Hin as [_ ?].
Qed.

Lemma word_boundary_property_witness :
  Unicode.of_string "aspirin"
  ∉ (Unicode.extract_entities Unicode.tabulated_lower
                              Unicode.tabulated_is_word
                              (Unicode.of_string "Xaspirin, ASPIRINO")).1.
Proof.
  apply (proj1 word_boundary_property
               Unicode.tabulated_lower Unicode.tabulated_is_word
               (Unicode.of_string "Xaspirin, ASPIRINO")
               (Unicode.of_string "aspirin")).
  - apply UnicodeFacts.tabulated_letters.
  - vm_compute. left.
  - apply UnicodeFacts.embedded_plain_by_search. by vm_compute.
Defined.

(** C5 as stated fails where lowering moves a word boundary.  The capital
    I with a dot above is a letter, so in the text made of it and
    "aspirin" the term stands only inside a longer word, in whatever
    letter case it is looked for; and it is returned. *)
Lemma aspirin_inside_longer_word :
  let text := 304%N :: Unicode.of_string "aspirin" in
  Unicode.tabulated_is_word 304 = true
  ∧ Unicode.embedded_ignoring_case Unicode.tabulated_lower
                                   Unicode.tabulated_is_word
                                   (Unicode.of_string "aspirin") text
  ∧ (Unicode.extract_entities Unicode.tabulated_lower
                              Unicode.tabulated_is_word text).1
    = [Unicode.of_string "aspirin"].
Proof.
  split; [reflexivity|]. split; [|by vm_compute].
  apply UnicodeFacts.embedded_by_search. by vm_compute.
Qed.

(** C6. Two texts that differ only in the case of their letters give the
    same medications and the same symptoms. *)
Theorem extract_entities_case_insensitive (s t : string) :
  same_up_to_case s t = true → extract_entities s = extract_entities t.
Proof.
  intros H. unfold extract_entities.
  by rewrite (same_up_to_case_lower s t H).
Qed.

Lemma extract_entities_case_insensitive_witness :
  extract_entities "ASPIRIN" = extract_entities "Aspirin"
  ∧ extract_entities "aspirin" = extract_entities "Aspirin"
  ∧ extract_entities "aspirin" = (["aspirin"], []).
Proof.
  split; [|split].
  - apply (extract_entities_case_insensitive "ASPIRIN" "Aspirin").
    reflexivity.
  - apply (extract_entities_case_insensitive "aspirin" "Aspirin").
    reflexivity.
  - reflexivity.
Defined.

(** C10. The two vocabularies share no term, so no extracted medication is
    an extracted symptom of the same text. *)
Theorem extracted_sets_disjoint (text : string) :
  (∀ m, m ∈ MEDICATION_TERMS → m ∉ SYMPTOM_TERMS)
  ∧ (∀ m, m ∈ (extract_entities text).1 → m ∉ (extract_entities text).2).
Proof.
  pose proof terms_disjoint as Hd. rewrite Forall_forall in Hd.
  split; [done|]. intros m Hm Hs.
  apply (found_mentioned MEDICATION_PATTERN) in Hm as [Hm _];
    [|apply medication_terms_nonempty].
  apply (found_mentioned SYMPTOM_PATTERN) in Hs as [Hs _];
    [|apply symptom_terms_nonempty].
  by apply (Hd m).
Qed.

Lemma extracted_sets_disjoint_witness :
  "aspirin" ∉ (extract_entities "aspirin gave me a rash").2.
Proof.
  apply (proj2 (extracted_sets_disjoint "aspirin gave me a rash")).
  vm_compute. left.
Defined.

(** ** The adverse-event lookup *)

Module LookupFacts.
Import StrFacts.

Lemma comprehension_length {A B} (f : A → result B) l ys :
  comprehension f l = inr ys → length ys = length l.
Proof.
  revert ys. induction l as [|x l IH]; intros ys H; simpl in H.
  - by inversion H.
  - destruct (f x) as [e|y]; [done|]. simpl in H.
    destruct (comprehension f l) as [e|ys']; [done|].
    inversion H. simpl. f_equal. by apply IH.
Qed.

Lemma comprehension_Forall {A B} (P : B → Prop) (f : A → result B) l ys :
  (∀ x y, f x = inr y → P y) →
  comprehension f l = inr ys → Forall P ys.
Proof.
  intros Hf. revert ys. induction l as [|x l IH]; intros ys H; simpl in H.
  - inversion H. constructor.
  - destruct (f x) as [e|y] eqn:E; [done|]. simpl in H.
    destruct (comprehension f l) as [e|ys']; [done|].
    inversion H. constructor; [by eapply Hf|by apply IH].
Qed.

Lemma term_of_lowercase item t : term_of item = inr t → lower t = t.
Proof.
  unfold term_of. destruct (py_getitem item "term") as [e|v]; [done|].
  destruct v; try done. simpl. intros [= <-]. apply lower_idemp.
Qed.

Lemma term_of_string s : term_of (JStr s) = inl TypeError.
Proof. reflexivity. Qed.

(** Iterating over anything but a list gives strings, which have no
    ['term']: the comprehension is empty or raises. *)
Lemma comprehension_strings (ss : list string) ys :
  comprehension term_of (map JStr ss) = inr ys → ys = [].
Proof. destruct ss; simpl; [by intros [= <-]|done]. Qed.

(** What [read_events] makes of a response it can read. *)
Lemma read_events_inr resp events :
  read_events resp = inr events →
  Forall (λ t, lower t = t) events
  ∧ (events = []
     ∨ ∃ body items,
         status_code resp = 200%Z ∧ json_body resp = inr body
         ∧ py_get_default body "results" (JArr []) = inr (JArr items)
         ∧ length events = length items).
Proof.
  unfold read_events. destruct (Z.eqb_spec (status_code resp) 200);
    [|intros [= <-]; split; [constructor|by left]].
  destruct (json_body resp) as [e'|body] eqn:Hb; [done|]. simpl.
  destruct (py_get_default body "results" (JArr [])) as [e'|v] eqn:Hr;
    [done|]. simpl.
  destruct v as [| | |s|items|fields]; simpl; try done.
  - intros ->%comprehension_strings. split; [constructor|by left].
  - intros H. split.
    + eapply comprehension_Forall; [apply term_of_lowercase|done].
    + right. exists body, items. repeat split; try done.
      by eapply comprehension_length.
  - rewrite <- (map_map fst JStr).
    intros ->%comprehension_strings. split; [constructor|by left].
Qed.

Section Run.
Context {W : Type}.
Variable requests_get : request → W → result response * W.

Lemma get_fda_events_run med w :
  get_fda_events requests_get med w =
  let out := requests_get (fda_request med) w in
  match out.1 ≫= read_events with
  | inr events => (events, [HttpGet (fda_request med)], out.2)
  | inl e =>
      ([], [HttpGet (fda_request med);
            StError (WithError "FDA API Error: " e)], out.2)
  end.
Proof.
  unfold get_fda_events, http_get. unfold mbind at 1, prog_bind.
  destruct (requests_get (fda_request med) w) as [out w']. simpl.
  by destruct (out ≫= read_events).
Qed.

Lemma get_fda_events_requests med w :
  requests (log (get_fda_events requests_get med w)) = [fda_request med].
Proof.
  rewrite get_fda_events_run. simpl.
  by destruct (_ ≫= read_events).
Qed.
End Run.

End LookupFacts.

Import LookupFacts.

(** C3, as the code has it.  The lookup returns lowercase terms, and it
    returns either nothing or one term for each item of the result list it
    received: it cuts nothing off.  So the length is at most the limit 5 of
    the query whenever the remote service honoured that limit. *)
Theorem get_fda_events_bounded {W}
    (requests_get : request → W → result response * W)
    (medication : string) (w : W) :
  let out := (requests_get (fda_request medication) w).1 in
  let events := value (get_fda_events requests_get medication w) in
  Forall (λ t, lower t = t) events
  ∧ (events = []
     ∨ ∃ resp body items,
         out = inr resp ∧ status_code resp = 200%Z
         ∧ json_body resp = inr body
         ∧ py_get_default body "results" (JArr []) = inr (JArr items)
         ∧ length events = length items)
  ∧ (honours_limit (fda_request medication) out → length events ≤ 5).
Proof.
  intros out events.
  assert (Forall (λ t, lower t = t) events
          ∧ (events = []
             ∨ ∃ resp body items,
                 out = inr resp ∧ status_code resp = 200%Z
                 ∧ json_body resp = inr body
                 ∧ py_get_default body "results" (JArr []) = inr (JArr items)
                 ∧ length events = length items)) as [Hlow Hlen].
  { subst events out. rewrite get_fda_events_run. simpl.
    destruct (requests_get (fda_request medication) w) as [out w']. simpl.
    destruct out as [e|resp]; simpl; [split; [constructor|by left]|].
    destruct (read_events resp) as [e|events] eqn:E;
      [split; [constructor|by left]|].
    apply read_events_inr in E as [Hlow Hlen]. split; [done|].
    destruct Hlen as [->|(body & items & Hs & Hb & Hr & Hl)]; [by left|].
    right. by exists resp, body, items. }
  split; [done|]. split; [done|]. intros Hl.
  destruct Hlen as [->|(resp & body & items & Ho & _ & Hb & Hr & ->)];
    [simpl; lia|].
  specialize (Hl resp body items Ho Hb Hr). simpl in Hl. lia.
Qed.

Lemma get_fda_events_bounded_witness :
  value (get_fda_events (always aspirin_rows) "Aspirin" tt)
  = ["nausea"; "bleeding"; "rash"]
  ∧ length (value (get_fda_events (always aspirin_rows) "Aspirin" tt)) ≤ 5.
Proof.
  split; [reflexivity|].
  apply (proj2 (proj2 (get_fda_events_bounded (always aspirin_rows)
                                              "Aspirin" tt))).
  intros resp body items [= <-] [= <-] [= <-]. simpl. lia.
Defined.

(** C3 as stated fails: a response with six rows and status 200 gives a
    list of six terms. *)
Lemma get_fda_events_six_rows :
  ¬ length (value (get_fda_events (always six_rows) "Aspirin" tt)) ≤ 5.
Proof. vm_compute. lia. Qed.

(** ** The cross-referencer and the presenter *)

Module PresenterFacts.

Lemma bind_run {W A B} (m : prog W A) (f : A → prog W B) w :
  (m ≫= f) w =
  (value (f (value (m w)) (world (m w))),
   log (m w) ++ log (f (value (m w)) (world (m w))),
   world (f (value (m w)) (world (m w)))).
Proof.
  unfold mbind, prog_bind. destruct (m w) as [[a l1] w1]. simpl.
  unfold value, log, world. simpl. by destruct (f a w1) as [[b l2] w2].
Qed.

Lemma requests_app l1 l2 : requests (l1 ++ l2) = requests l1 ++ requests l2.
Proof. apply omap_app. Qed.

Lemma for_each_emit {W A} (f : A → event) (l : list A) (w : W) :
  for_each (λ x, emit (f x)) l w = (tt, map f l, w).
Proof.
  induction l as [|x l IH]; [done|].
  simpl. rewrite bind_run. unfold value, log, world. simpl. by rewrite IH.
Qed.

Lemma report_run {W} symptoms adverse_events (w : W) :
  report symptoms adverse_events w
  = (tt, report_log symptoms adverse_events, w).
Proof.
  unfold report, report_log.
  destruct (cross_reference symptoms adverse_events) as [|m ms]; [done|].
  rewrite !bind_run. unfold value, log, world. simpl.
  rewrite !bind_run. unfold value, log, world. simpl.
  by rewrite for_each_emit.
Qed.

Lemma requests_report_log symptoms adverse_events :
  requests (report_log symptoms adverse_events) = [].
Proof.
  unfold report_log.
  destruct (cross_reference symptoms adverse_events) as [|m ms]; [done|].
  generalize (m :: ms). intros l. simpl. rewrite requests_app. simpl.
  rewrite app_nil_r. induction l as [|x l IH]; [done|]. apply IH.
Qed.

Section Run.
Context {W : Type}.
Variable requests_get : request → W → result response * W.

Lemma analyse_medication_run symptoms med w :
  let r := get_fda_events requests_get (capitalize med) w in
  analyse_medication requests_get symptoms med w
  = (tt,
     StExpander ("**" +:+ capitalize med +:+ "** Analysis")
       :: log r ++ after_lookup symptoms (value r),
     world r).
Proof.
  unfold analyse_medication. rewrite !bind_run.
  unfold emit at 1 2 3 4 5. unfold value at 3 4 5, world at 3 4 5, log at 1.
  simpl.
  destruct (get_fda_events requests_get (capitalize med) w)
    as [[events l] w'].
  unfold value, log, world. simpl.
  destruct events; [done|]. by rewrite report_run.
Qed.

Lemma requests_analyse_medication symptoms med w :
  requests (log (analyse_medication requests_get symptoms med w))
  = [fda_request (capitalize med)].
Proof.
  rewrite analyse_medication_run. unfold log at 1. simpl.
  rewrite requests_app, LookupFacts.get_fda_events_requests.
  unfold after_lookup.
  destruct (value _); [done|]. by rewrite requests_report_log.
Qed.

Lemma requests_for_each symptoms meds : ∀ w,
  requests (log (for_each (analyse_medication requests_get symptoms) meds w))
  = map (λ med, fda_request (capitalize med)) meds.
Proof.
  induction meds as [|med meds IH]; intros w; [done|].
  simpl. rewrite bind_run. unfold log at 1. simpl.
  by rewrite requests_app, requests_analyse_medication, IH.
Qed.
End Run.

End PresenterFacts.

Import PresenterFacts.




(** C7. When the lookup of a medication returns the empty list, the body of
    the loop shows the expander, what the lookup itself logged, and the
    line "No adverse event data found", and nothing else; the symptoms play
    no part in it; the loop body returns normally. *)
Theorem no_data_report {W} (requests_get : request → W → result response * W)
    (symptoms : list string) (med : string) (w : W) :
  value (get_fda_events requests_get (capitalize med) w) = [] →
  log (analyse_medication requests_get symptoms med w)
  = StExpander ("**" +:+ capitalize med +:+ "** Analysis")
      :: log (get_fda_events requests_get (capitalize med) w)
      ++ [StWrite [Plain "No adverse event data found"]]
  ∧ ∀ symptoms',
      analyse_medication requests_get symptoms' med w
      = analyse_medication requests_get symptoms med w.
Proof.
  intros H. split.
  - rewrite analyse_medication_run. unfold log at 1. simpl. by rewrite H.
  - intros symptoms'. rewrite !analyse_medication_run. simpl. by rewrite H.
Qed.

Lemma no_data_report_witness :
  log (analyse_medication (always not_found) ["headache"; "nausea"]
                          "aspirin" tt)
  = [StExpander "**Aspirin** Analysis";
     HttpGet (fda_request "Aspirin");
     StWrite [Plain "No adverse event data found"]].
Proof.
  apply (proj1 (no_data_report (always not_found) ["headache"; "nausea"]
                               "aspirin" tt eq_refl)).
Defined.

(** C8, as the code has it.  For a non-empty text in which no medication is
    found, symptoms or not, the analysis shows the warning "No medications
    detected in the text", which is not the line of a medication without
    data, and sends no request. *)
Theorem no_medications_report {W}
    (requests_get : request → W → result response * W)
    (text : string) (w : W) :
  truthy text = true →
  (extract_entities text).1 = [] →
  log (analysis requests_get text w)
  = [StSpinner "Analyzing...";
     StWarning (Plain "No medications detected in the text")]
  ∧ requests (log (analysis requests_get text w)) = [].
Proof.
  intros Ht Hm. unfold analysis. rewrite Ht, bind_run.
  destruct (extract_entities text) as [meds symptoms]. simpl in Hm.
  by subst meds.
Qed.

Lemma no_medications_report_witness :
  (extract_entities "severe headache and nausea").2 ≠ []
  ∧ requests (log (analysis (always aspirin_rows)
                            "severe headache and nausea" tt)) = [].
Proof.
  split; [by vm_compute|].
  apply (no_medications_report (always aspirin_rows)
                               "severe headache and nausea" tt);
    vm_compute; reflexivity.
Defined.

(** C8 as stated fails on the empty text: no medication is found in it,
    and the analysis section, which is guarded by [if text:], shows
    nothing. *)
Lemma analysis_of_empty_text_silent :
  (extract_entities "").1 = []
  ∧ StWarning (Plain "No medications detected in the text")
    ∉ log (analysis (always aspirin_rows) "" tt).
Proof. split; [by vm_compute|]. apply not_elem_of_nil. Qed.

(** C2. The matches are the intersection of the symptoms with the adverse
    events: a term is a match exactly when it is in both, and listing the
    symptoms or the events in another order gives the same matches up to
    order.  For the symptoms headache and nausea and the events nausea,
    bleeding, rash the only match is nausea: it is shown under "Potential
    adverse effects detected" and headache is not.  A non-empty list of
    matches is shown under that heading term by term, followed by all the
    events; with no match the report says so and shows all the events.
    That report is what the loop body shows of a medication whose lookup
    returned a non-empty list. *)
Theorem cross_reference_intersection {W} (w : W)
    (symptoms adverse_events : list string) :
  (∀ s, s ∈ cross_reference symptoms adverse_events
        ↔ s ∈ symptoms ∧ s ∈ adverse_events)
  ∧ (∀ symptoms' adverse_events',
       symptoms ≡ₚ symptoms' → adverse_events ≡ₚ adverse_events' →
       cross_reference symptoms adverse_events
       ≡ₚ cross_reference symptoms' adverse_events')
  ∧ cross_reference ["headache"; "nausea"] ["nausea"; "bleeding"; "rash"]
    = ["nausea"]
  ∧ log (report ["headache"; "nausea"] ["nausea"; "bleeding"; "rash"] w)
    = [StError (Plain "**Potential adverse effects detected:**");
       StWrite [Bullet "Nausea"];
       StWrite [Plain "Common FDA-reported effects:"];
       StWrite [Plain "Nausea, Bleeding, Rash"]]
  ∧ (cross_reference symptoms adverse_events ≠ [] →
     log (report symptoms adverse_events w)
     = [StError (Plain "**Potential adverse effects detected:**")]
       ++ map (λ m, StWrite [Bullet (capitalize m)])
              (cross_reference symptoms adverse_events)
       ++ [StWrite [Plain "Common FDA-reported effects:"];
           StWrite [Plain (join ", " (map capitalize adverse_events))]])
  ∧ (cross_reference symptoms adverse_events = [] →
     log (report symptoms adverse_events w)
     = [StSuccess (Plain "No matching adverse effects detected");
        StWrite [Plain "Known effects:";
                 Plain (join ", " (map capitalize adverse_events))]])
  ∧ (∀ (requests_get : request → W → result response * W) med,
       adverse_events ≠ [] →
       value (get_fda_events requests_get (capitalize med) w)
       = adverse_events →
       log (analyse_medication requests_get symptoms med w)
       = StExpander ("**" +:+ capitalize med +:+ "** Analysis")
           :: log (get_fda_events requests_get (capitalize med) w)
           ++ log (report symptoms adverse_events w)).
Proof.
  split; [|split; [|split; [|split; [|split; [|split]]]]].
  - intros s. unfold cross_reference. rewrite list_elem_of_filter. tauto.
  - intros symptoms' adverse_events' Hs Ha. unfold cross_reference.
    rewrite <- Hs. erewrite list_filter_iff; [done|].
    intros s. simpl. by rewrite Ha.
  - by vm_compute.
  - by vm_compute.
  - intros Hm. rewrite report_run. unfold log, report_log. simpl.
    by destruct (cross_reference symptoms adverse_events).
  - intros Hm. rewrite report_run. unfold log, report_log. simpl.
    by rewrite Hm.
  - intros requests_get med Hne Hv. rewrite analyse_medication_run, Hv.
    rewrite report_run. unfold log at 1 3. simpl.
    by destruct adverse_events.
Qed.

Lemma cross_reference_intersection_witness :
  log (analyse_medication (always aspirin_rows) ["nausea"; "headache"]
                          "aspirin" tt)
  = [StExpander "**Aspirin** Analysis";
     HttpGet (fda_request "Aspirin");
     StError (Plain "**Potential adverse effects detected:**");
     StWrite [Bullet "Nausea"];
     StWrite [Plain "Common FDA-reported effects:"];
     StWrite [Plain "Nausea, Bleeding, Rash"]]
  ∧ cross_reference ["headache"; "nausea"] ["nausea"; "bleeding"; "rash"]
    ≡ₚ cross_reference ["nausea"; "headache"] ["nausea"; "bleeding"; "rash"].
Proof.
  split; [by vm_compute|].
  apply (proj1 (proj2 (cross_reference_intersection
                         tt ["headache"; "nausea"]
                         ["nausea"; "bleeding"; "rash"]))
               ["nausea"; "headache"] ["nausea"; "bleeding"; "rash"]).
  - apply Permutation_swap.
  - reflexivity.
Defined.

(** ** The transcriber *)

Module SpeechFacts.

Lemma py_strings_JStr ss : py_strings (map JStr ss) = inr ss.
Proof. induction ss as [|s ss IH]; [done|]. simpl. by rewrite IH. Qed.

Lemma texts_of_results results :
  Forall recognizer_result results →
  comprehension_if (λ res, t ← py_get res "text"; mret (py_truthy t))
                   (λ res, py_get_default res "text" (JStr "")) results
  = inr (map JStr (spoken_texts results)).
Proof.
  induction 1 as [|res results (fields & -> & Hf) _ IH]; [done|].
  unfold spoken_texts. simpl.
  destruct (lookup_field "text" fields) as [v|]; simpl; [|by rewrite IH].
  destruct (Hf v eq_refl) as [[s ->]|Hv].
  - simpl. destruct (truthy s); simpl; by rewrite IH.
  - rewrite Hv, IH. destruct v; try done. simpl in Hv. by rewrite Hv.
Qed.

Lemma join_texts_spoken results :
  Forall recognizer_result results →
  join_texts results = inr (join " " (spoken_texts results)).
Proof.
  intros H. unfold join_texts. rewrite (texts_of_results _ H). simpl.
  unfold py_join. by rewrite py_strings_JStr.
Qed.

End SpeechFacts.

Import SpeechFacts.

(** ** The frame loop against what the recognizer is fed *)

Module RecognitionFacts.
Import Recognition.

Section Recognizer.
Context {Rec : Type}.
Variable AcceptWaveform : Rec → list byte → result (bool * Rec).
Variable Result : Rec → result (string * Rec).
Variable json_loads : string → result json.

#[local] Abbreviation feed :=
  (feed_frames AcceptWaveform Result json_loads).
#[local] Abbreviation fed :=
  (Recognition.fed AcceptWaveform Result json_loads).
#[local] Abbreviation interrupted :=
  (Recognition.interrupted AcceptWaveform Result json_loads).

Lemma feed_frames_fed r data results r' :
  fed r data results r' →
  ∀ acc, feed r data acc = inr (acc ++ results, r').
Proof.
  induction 1 as [r|r r1 frame data results r' Ha _ IH
                 |r r1 r2 frame data out res results r' Ha Hr Hd _ IH];
    intros acc.
  - by rewrite app_nil_r.
  - simpl. rewrite Ha. simpl. apply IH.
  - simpl. rewrite Ha. simpl. rewrite Hr. simpl. rewrite Hd. simpl.
    rewrite IH. by rewrite <- app_assoc.
Qed.

Lemma feed_frames_interrupted r data e :
  interrupted r data e → ∀ acc, feed r data acc = inl e.
Proof.
  induction 1 as [r frame data e Ha
                 |r r1 frame data e Ha Hr
                 |r r1 r2 frame data out e Ha Hr Hd
                 |r r1 frame data e Ha _ IH
                 |r r1 r2 frame data out res e Ha Hr Hd _ IH];
    intros acc; simpl; rewrite Ha; simpl; try done.
  - by rewrite Hr.
  - rewrite Hr. simpl. by rewrite Hd.
  - rewrite Hr. simpl. rewrite Hd. simpl. apply IH.
Qed.

Lemma feed_frames_inr data : ∀ r acc results' r',
  feed r data acc = inr (results', r') →
  ∃ results, results' = acc ++ results ∧ fed r data results r'.
Proof.
  induction data as [|frame data IH]; intros r acc rs' r' H.
  { injection H as <- <-. exists []. split; [by rewrite app_nil_r|].
    constructor. }
  simpl in H.
  destruct (AcceptWaveform r frame) as [e|[[] r1]] eqn:Ha; [done| |];
    simpl in H.
  - destruct (Result r1) as [e|[out r2]] eqn:Hr; [done|]. simpl in H.
    destruct (json_loads out) as [e|res] eqn:Hd; [done|]. simpl in H.
    apply IH in H as (rs & -> & Hfed). exists (res :: rs).
    split; [by rewrite <- app_assoc|]. by eapply fed_utterance.
  - apply IH in H as (rs & -> & Hfed). exists rs.
    split; [done|]. by eapply fed_silent.
Qed.

Lemma feed_frames_inl data : ∀ r acc e,
  feed r data acc = inl e → interrupted r data e.
Proof.
  induction data as [|frame data IH]; intros r acc e H; [done|].
  simpl in H.
  destruct (AcceptWaveform r frame) as [e'|[[] r1]] eqn:Ha; simpl in H.
  - injection H as ->. by apply interrupted_accept.
  - destruct (Result r1) as [e'|[out r2]] eqn:Hr; simpl in H.
    { injection H as ->. by eapply interrupted_result. }
    destruct (json_loads out) as [e'|res] eqn:Hd; simpl in H.
    { injection H as ->. by eapply interrupted_decoder. }
    apply IH in H. by eapply interrupted_after_utterance.
  - apply IH in H. by eapply interrupted_after_silent.
Qed.

Lemma fed_length r data results r' :
  fed r data results r' → length results ≤ length data.
Proof. induction 1; simpl; lia. Qed.
End Recognizer.

(** The [return] expression goes through only on results of the shape a
    recognizer gives. *)
Lemma join_texts_inr_shaped results transcript :
  join_texts results = inr transcript → Forall recognizer_result results.
Proof.
  unfold join_texts.
  destruct (comprehension_if _ _ results) as [e|texts] eqn:E; [done|].
  simpl. unfold py_join.
  destruct (py_strings texts) as [e|ss] eqn:Es; [done|]. intros _.
  revert texts ss E Es.
  induction results as [|res results IH]; intros texts ss E Es.
  { constructor. }
  simpl in E. destruct res as [| | | | |fields]; try done. simpl in E.
  destruct (lookup_field "text" fields) as [v|] eqn:Hf; simpl in E.
  - destruct (py_truthy v) eqn:Hv.
    + destruct (comprehension_if _ _ results) as [e|ys] eqn:E'; [done|].
      injection E as <-. simpl in Es.
      destruct v as [| | |s| |]; try done.
      destruct (py_strings ys) as [e|ss'] eqn:Es'; [done|].
      constructor; [|by eapply IH].
      exists fields. split; [done|]. intros v' Hv'. rewrite Hf in Hv'.
      injection Hv' as <-. left. by exists s.
    + constructor; [|by eapply IH].
      exists fields. split; [done|]. intros v' Hv'. rewrite Hf in Hv'.
      injection Hv' as <-. by right.
  - constructor; [|by eapply IH].
    exists fields. split; [done|]. intros v Hv. by rewrite Hf in Hv.
Qed.

End RecognitionFacts.

Import RecognitionFacts.

(** C9. [transcribe_audio] always returns a string, and which one is read
    off the stages of its [try] block.  When the upload is decoded, the
    recognizer is created, every frame is taken, and the final result is
    given and decoded, the results are those of the frames that completed
    an utterance, in the order of the frames, followed by the final one;
    if each is an object whose "text" is a string when it is there, the
    transcript is their non-empty "text" fields joined by single spaces
    and nothing is reported.  When [sf.read], [KaldiRecognizer],
    [AcceptWaveform], [Result], [FinalResult] or the JSON decoder raises,
    at whatever frame, or a result has not that shape, the transcript is
    the empty string and one [st.error] diagnostic carries the exception;
    the script then shows it and goes on with nothing to analyse. *)
Theorem transcribe_audio_spec {Rec W}
    (sf_read : list byte → result (list (list byte) * Z))
    (KaldiRecognizer : Z → result Rec)
    (AcceptWaveform : Rec → list byte → result (bool * Rec))
    (Result FinalResult : Rec → result (string * Rec))
    (json_loads : string → result json)
    (requests_get : request → W → result response * W)
    (audio : list byte) :
  let transcribe :=
    transcribe_audio sf_read KaldiRecognizer AcceptWaveform Result
                     FinalResult json_loads in
  let failed : exn → string * list event :=
    λ e, ("", [StError (WithError "Transcription failed: " e)]) in
  (∀ e, sf_read audio = inl e → transcribe audio = failed e)
  ∧ (∀ data samplerate, sf_read audio = inr (data, samplerate) →
     (∀ e, KaldiRecognizer samplerate = inl e →
           transcribe audio = failed e)
     ∧ (∀ r0, KaldiRecognizer samplerate = inr r0 →
        (∀ e, Recognition.interrupted AcceptWaveform Result json_loads
                                      r0 data e →
              transcribe audio = failed e)
        ∧ (∀ partials r1,
             Recognition.fed AcceptWaveform Result json_loads
                             r0 data partials r1 →
           (∀ e, FinalResult r1 = inl e → transcribe audio = failed e)
           ∧ (∀ out r2, FinalResult r1 = inr (out, r2) →
              (∀ e, json_loads out = inl e → transcribe audio = failed e)
              ∧ (∀ final, json_loads out = inr final →
                 (Forall recognizer_result (partials ++ [final]) →
                  transcribe audio
                  = (join " " (spoken_texts (partials ++ [final])), []))
                 ∧ (¬ Forall recognizer_result (partials ++ [final]) →
                    ∃ e, transcribe audio = failed e))))))
  ∧ (∀ e, transcribe audio = failed e →
       ∀ w, script sf_read KaldiRecognizer AcceptWaveform Result
                   FinalResult json_loads requests_get
                   (AudioInput (Some audio)) w
            = (tt, [StSpinner "Transcribing audio...";
                    StError (WithError "Transcription failed: " e)], w)).
Proof.
  intros transcribe failed. subst transcribe failed.
  unfold script, input_section, transcribe_audio, recognition_results.
  split; [|split].
  - intros e He. by rewrite He.
  - intros data samplerate Hread. rewrite Hread. simpl. split.
    { intros e He. by rewrite He. }
    intros r0 Hk. rewrite Hk. simpl. split.
    { intros e He. by rewrite (feed_frames_interrupted _ _ _ _ _ _ He). }
    intros partials r1 Hfed.
    rewrite (feed_frames_fed _ _ _ _ _ _ _ Hfed). simpl. split.
    { intros e He. by rewrite He. }
    intros out r2 Hfinal. rewrite Hfinal. simpl. split.
    { intros e He. by rewrite He. }
    intros final Hd. rewrite Hd. simpl. split.
    + intros Hshape. by rewrite (join_texts_spoken _ Hshape).
    + intros Hshape.
      destruct (join_texts (partials ++ [final])) as [e|t] eqn:E;
        [by exists e|].
      by apply join_texts_inr_shaped in E.
  - intros e.
    destruct (_ ≫= join_texts) as [e'|t]; [|by intros [= -> ?]].
    intros [= ->]. done.
Qed.

Lemma transcribe_audio_spec_witness :
  transcribe_audio toy_read toy_recognizer toy_accept toy_result toy_final
                   toy_loads [x01; x02; x03; x04; x05]
  = ("ok ok", [])
  ∧ transcribe_audio toy_read toy_recognizer Recognition.faulty_accept
                     toy_result toy_final toy_loads
                     [x01; x02; x03; x04; x05]
    = ("", [StError (WithError "Transcription failed: "
                               (External "decoder crashed"))])
  ∧ transcribe_audio bad_read toy_recognizer toy_accept toy_result toy_final
                     toy_loads [x01; x02]
    = ("", [StError (WithError "Transcription failed: "
                               (External "Format not recognised"))]).
Proof.
  split; [|split].
  - pose proof (transcribe_audio_spec
                  toy_read toy_recognizer toy_accept toy_result toy_final
                  toy_loads (always not_found)
                  [x01; x02; x03; x04; x05]) as (_ & H & _).
    destruct (H _ _ eq_refl) as [_ H0].
    destruct (H0 _ eq_refl) as [_ H1].
    destruct (H1 [JObj [("text", JStr "ok")]; JObj [("text", JStr "ok")]] 5)
      as [_ H2].
    { eapply Recognition.fed_silent; [reflexivity|].
      eapply Recognition.fed_utterance; [reflexivity..|].
      eapply Recognition.fed_silent; [reflexivity|].
      eapply Recognition.fed_utterance; [reflexivity..|].
      eapply Recognition.fed_silent; [reflexivity|].
      apply Recognition.fed_end. }
    destruct (H2 _ _ eq_refl) as [_ H3].
    destruct (H3 _ eq_refl) as [H4 _].
    apply H4.
    repeat constructor; eexists; (split; [reflexivity|]);
      intros v [= <-]; left; eexists; reflexivity.
  - pose proof (transcribe_audio_spec
                  toy_read toy_recognizer Recognition.faulty_accept
                  toy_result toy_final toy_loads (always not_found)
                  [x01; x02; x03; x04; x05]) as (_ & H & _).
    destruct (H _ _ eq_refl) as [_ H0].
    destruct (H0 _ eq_refl) as [H1 _].
    apply H1.
    eapply Recognition.interrupted_after_silent; [reflexivity|].
    eapply Recognition.interrupted_after_utterance; [reflexivity..|].
    apply Recognition.interrupted_accept. reflexivity.
  - apply (proj1 (transcribe_audio_spec
                    bad_read toy_recognizer toy_accept toy_result toy_final
                    toy_loads (always not_found) [x01; x02])
                 (External "Format not recognised")).
    reflexivity.
Defined.

(** * Further properties of the code *)

(** ** More on [findall] and the extractor *)

Module ScanFacts.

Lemma mentioned_whole_word_lower w text :
  mentioned w text → whole_word w (lower text).
Proof.
  intros (pre & mid & post & -> & <- & B1 & B2).
  exists (lower pre), (lower post). split; [by rewrite !lower_app|].
  unfold word_between, boundary in *. rewrite <- !lower_app.
  by rewrite !word_at_head_lower, !word_at_last_lower.
Qed.

Lemma whole_word_length w text :
  whole_word w text → String.length w ≤ String.length text.
Proof. intros (pre & post & -> & _). rewrite !length_app. lia. Qed.

Lemma lower_length s : String.length (lower s) = String.length s.
Proof. induction s as [|c s IH]; [done|]. simpl. by rewrite IH. Qed.

Lemma str_app_inj_r s t u : s +:+ u = t +:+ u → s = t.
Proof.
  intros E. apply (app_inv_length s t u u); [|done].
  apply (f_equal String.length) in E. rewrite !length_app in E. lia.
Qed.

(** No literal made of word characters reaches over a character that is
    not one. *)
Lemma strip_prefix_sep w : ∀ s c t,
  all_word w = true → is_word c = false →
  strip_prefix w (s +:+ String c t)
  = (λ r, r +:+ String c t) <$> strip_prefix w s.
Proof.
  induction w as [|a w IH]; intros s c t Hw Hc; [done|].
  simpl in Hw. apply andb_true_iff in Hw as [Ha Hw].
  destruct s as [|b s].
  - rewrite str_app_nil_l. simpl.
    destruct (Ascii.eqb_spec a c) as [->|]; [congruence|done].
  - rewrite str_app_cons. simpl. destruct (Ascii.eqb a b); [by apply IH|done].
Qed.

Lemma word_at_head_sep s c t :
  is_word c = false → word_at (head (s +:+ String c t)) = word_at (head s).
Proof. intros Hc. by destruct s. Qed.

Lemma match_literal_sep w s c t :
  all_word w = true → is_word c = false →
  match_literal w (s +:+ String c t) = match_literal w s.
Proof.
  intros Hw Hc. unfold match_literal. rewrite strip_prefix_sep by done.
  destruct (strip_prefix w s) as [r|]; [|done]. simpl.
  unfold boundary. by rewrite word_at_head_sep.
Qed.

Lemma first_alternative_sep alts s c t :
  Forall (λ w, all_word w = true) alts → is_word c = false →
  first_alternative alts (s +:+ String c t) = first_alternative alts s.
Proof.
  intros Hall Hc. induction Hall as [|w alts Hw _ IH]; [done|].
  simpl. by rewrite match_literal_sep, IH.
Qed.

Lemma first_alternative_empty alts :
  Forall (λ w, w ≠ "") alts → first_alternative alts "" = None.
Proof.
  induction 1 as [|w alts Hw _ IH]; [done|]. simpl. by destruct w.
Qed.

Lemma scan_prev p prev prev' skip s :
  word_at prev = word_at prev' → scan p prev skip s = scan p prev' skip s.
Proof.
  intros H. destruct s as [|c s]; [done|]. destruct skip; [|done].
  simpl. unfold match_at, boundary. by rewrite H.
Qed.

Section Separator.
Variable p : pattern.
Hypothesis nonempty : Forall (λ w, w ≠ "") (alternatives p).
Hypothesis words : Forall (λ w, all_word w = true) (alternatives p).

Lemma match_at_sep prev s c t :
  is_word c = false →
  match_at p prev (s +:+ String c t) = match_at p prev s.
Proof.
  intros Hc. unfold match_at, boundary.
  by rewrite word_at_head_sep, first_alternative_sep.
Qed.

Lemma match_at_word_prefix prev c s w :
  match_at p prev (String c s) = Some w →
  word_prefix (String.length w - 1) s = true.
Proof.
  unfold match_at. destruct (boundary _ _); [|done].
  intros [Hin Hm]%first_alternative_Some.
  apply match_literal_true in Hm as (post & E & _).
  assert (all_word w = true) as Hw by (by eapply Forall_forall in words).
  destruct w as [|d w]; [by eapply Forall_forall in nonempty|].
  rewrite str_app_cons in E. injection E as <- ->.
  simpl in *. apply andb_true_iff in Hw as [_ Hw].
  rewrite Nat.sub_0_r. by apply word_prefix_app.
Qed.

Lemma scan_sep s : ∀ prev skip c t,
  word_prefix skip s = true → is_word c = false →
  scan p prev skip (s +:+ String c t)
  = scan p prev skip s ++ scan p None 0 t.
Proof.
  induction s as [|b s IH]; intros prev skip c t Hskip Hc.
  - destruct skip; [|done]. rewrite str_app_nil_l. simpl.
    rewrite <- (str_app_nil_l (String c t)), match_at_sep by done.
    unfold match_at. rewrite first_alternative_empty by done.
    destruct (boundary prev (head "")); by apply scan_prev.
  - rewrite str_app_cons. destruct skip as [|k].
    + simpl. rewrite <- str_app_cons, match_at_sep by done.
      destruct (match_at p prev (String b s)) as [w|] eqn:E.
      * rewrite IH; [done| |done]. by eapply match_at_word_prefix.
      * by rewrite IH.
    + simpl in *. apply andb_true_iff in Hskip as [_ Hskip]. by rewrite IH.
Qed.

Lemma findall_sep t1 c t2 :
  is_word c = false →
  findall p (t1 +:+ String c t2) = findall p t1 ++ findall p t2.
Proof. intros Hc. by apply scan_sep. Qed.
End Separator.

Lemma list_of_set_length_le xs vocabulary :
  (∀ x, x ∈ xs → x ∈ vocabulary) →
  length (list_of_set xs) ≤ length vocabulary.
Proof.
  intros Hsub. apply submseteq_length, NoDup_submseteq.
  - apply NoDup_list_of_set.
  - intros x Hx. apply Hsub. by apply elem_of_list_of_set.
Qed.

End ScanFacts.

Import ScanFacts.

(** X1. The extractor misses nothing: a term of a vocabulary that stands in
    the text between two word boundaries, in whatever letter case, is among
    the terms returned. *)
Theorem extract_entities_complete (text : string) :
  (∀ m, m ∈ MEDICATION_TERMS → mentioned m text →
        m ∈ (extract_entities text).1)
  ∧ (∀ s, s ∈ SYMPTOM_TERMS → mentioned s text →
          s ∈ (extract_entities text).2).
Proof.
  split; intros w Hv Hw%mentioned_whole_word_lower; simpl;
    rewrite elem_of_list_of_set; apply findall_complete; try done.
  - apply medication_terms_nonempty.
  - apply medication_terms_words.
  - apply symptom_terms_nonempty.
  - apply symptom_terms_words.
Qed.

Lemma extract_entities_complete_witness :
  "warfarin" ∈ (extract_entities "On WARFARIN (5mg), dizziness.").1.
Proof.
  apply (proj1 (extract_entities_complete "On WARFARIN (5mg), dizziness.")).
  - vm_compute. do 3 right. left.
  - exists "On ", "WARFARIN", " (5mg), dizziness.".
    split; [reflexivity|]. split; [reflexivity|]. split; reflexivity.
Defined.

(** X2. The terms returned are in lowercase, and lowering the text
    beforehand changes nothing of the result. *)
Theorem extract_entities_lowercase (text : string) :
  Forall (λ m, lower m = m) (extract_entities text).1
  ∧ Forall (λ s, lower s = s) (extract_entities text).2
  ∧ extract_entities (lower text) = extract_entities text.
Proof.
  assert (Forall (λ w, lower w = w) (MEDICATION_TERMS ++ SYMPTOM_TERMS))
    as Hlow by (by repeat constructor).
  rewrite Forall_forall in Hlow.
  split; [|split].
  - apply Forall_forall. intros m Hm. apply Hlow, elem_of_app. left.
    by apply (found_mentioned MEDICATION_PATTERN text m
                              medication_terms_nonempty).
  - apply Forall_forall. intros s Hs. apply Hlow, elem_of_app. right.
    by apply (found_mentioned SYMPTOM_PATTERN text s symptom_terms_nonempty).
  - unfold extract_entities. by rewrite lower_idemp.
Qed.

(** X3. Extraction goes piece by piece over a character that is not a
    word character: the matches of two texts joined by such a character
    are the matches of the first followed by those of the second, and a
    term is returned for the joined text exactly when it is returned for
    one of the two. *)
Theorem extract_entities_separated (t1 t2 : string) (c : ascii) :
  is_word c = false →
  findall MEDICATION_PATTERN (lower (t1 +:+ String c t2))
  = findall MEDICATION_PATTERN (lower t1)
    ++ findall MEDICATION_PATTERN (lower t2)
  ∧ findall SYMPTOM_PATTERN (lower (t1 +:+ String c t2))
    = findall SYMPTOM_PATTERN (lower t1)
      ++ findall SYMPTOM_PATTERN (lower t2)
  ∧ (∀ m, m ∈ (extract_entities (t1 +:+ String c t2)).1
          ↔ m ∈ (extract_entities t1).1 ∨ m ∈ (extract_entities t2).1)
  ∧ (∀ s, s ∈ (extract_entities (t1 +:+ String c t2)).2
          ↔ s ∈ (extract_entities t1).2 ∨ s ∈ (extract_entities t2).2).
Proof.
  intros Hc. rewrite <- is_word_lower_char in Hc.
  assert (∀ p, Forall (λ w, w ≠ "") (alternatives p) →
               Forall (λ w, all_word w = true) (alternatives p) →
               findall p (lower (t1 +:+ String c t2))
               = findall p (lower t1) ++ findall p (lower t2)) as Hsep.
  { intros p Hne Hw. rewrite lower_app. simpl. by apply findall_sep. }
  pose proof (Hsep _ medication_terms_nonempty medication_terms_words) as Hm.
  pose proof (Hsep _ symptom_terms_nonempty symptom_terms_words) as Hs.
  split; [done|]. split; [done|].
  split; intros w; simpl; rewrite !elem_of_list_of_set.
  - by rewrite Hm, elem_of_app.
  - by rewrite Hs, elem_of_app.
Qed.

Lemma extract_entities_separated_witness :
  findall SYMPTOM_PATTERN (lower ("Rash on Monday" +:+ String ","%char
                                   " nausea and RASH on Tuesday"))
  = ["rash"] ++ ["nausea"; "rash"].
Proof.
  apply (proj1 (proj2 (extract_entities_separated
                         "Rash on Monday" " nausea and RASH on Tuesday"
                         ","%char eq_refl))).
Defined.

(** X4. However long the text, at most seven medications and at most eight
    symptoms are returned. *)
Theorem extract_entities_bounded (text : string) :
  length (extract_entities text).1 ≤ 7
  ∧ length (extract_entities text).2 ≤ 8.
Proof.
  split.
  - apply (list_of_set_length_le _ MEDICATION_TERMS). intros m Hm.
    by apply (findall_sound MEDICATION_PATTERN medication_terms_nonempty)
      in Hm as [Hm _].
  - apply (list_of_set_length_le _ SYMPTOM_TERMS). intros s Hs.
    by apply (findall_sound SYMPTOM_PATTERN symptom_terms_nonempty)
      in Hs as [Hs _].
Qed.

(** X5. A returned term is no longer than the text; so a text of fewer
    than seven characters has no medication and one of fewer than four has
    no symptom. *)
Theorem extract_entities_short_text (text : string) :
  (∀ w, w ∈ (extract_entities text).1 ∨ w ∈ (extract_entities text).2 →
        String.length w ≤ String.length text)
  ∧ (String.length text < 7 → (extract_entities text).1 = [])
  ∧ (String.length text < 4 → (extract_entities text).2 = []).
Proof.
  assert (∀ p w, Forall (λ w, w ≠ "") (alternatives p) →
                 w ∈ list_of_set (findall p (lower text)) →
                 w ∈ alternatives p
                 ∧ String.length w ≤ String.length text) as Hlen.
  { intros p w Hne [Hv [Hw _]]%found_mentioned; [|done].
    split; [done|]. rewrite <- (lower_length text).
    by apply whole_word_length. }
  assert (Forall (λ w, 7 ≤ String.length w) MEDICATION_TERMS) as Hm
    by (repeat constructor; simpl; lia).
  assert (Forall (λ w, 4 ≤ String.length w) SYMPTOM_TERMS) as Hs
    by (repeat constructor; simpl; lia).
  rewrite Forall_forall in Hm, Hs.
  split; [|split].
  - intros w [Hw|Hw].
    + by apply (Hlen MEDICATION_PATTERN w medication_terms_nonempty).
    + by apply (Hlen SYMPTOM_PATTERN w symptom_terms_nonempty).
  - intros Hshort. simpl.
    destruct (list_of_set _) as [|w l] eqn:E; [done|].
    destruct (Hlen MEDICATION_PATTERN w medication_terms_nonempty)
      as [Hv Hl]; [rewrite E; left|].
    specialize (Hm w Hv). lia.
  - intros Hshort. simpl.
    destruct (list_of_set _) as [|w l] eqn:E; [done|].
    destruct (Hlen SYMPTOM_PATTERN w symptom_terms_nonempty)
      as [Hv Hl]; [rewrite E; left|].
    specialize (Hs w Hv). lia.
Qed.

Lemma extract_entities_short_text_witness :
  (extract_entities "a rash").1 = [] ∧ (extract_entities "a rash").2 = ["rash"].
Proof.
  split; [|by vm_compute].
  apply (proj1 (proj2 (extract_entities_short_text "a rash"))).
  simpl. lia.
Defined.

(** ** More on the lookup and the script *)

Module ServiceFacts.

Lemma comprehension_term_rows terms items :
  Forall2 term_row terms items →
  comprehension term_of items = inr (map lower terms).
Proof.
  induction 1 as [|t item terms items (fields & -> & Hf) _ IH]; [done|].
  assert (term_of (JObj fields) = inr (lower t)) as Ht.
  { unfold term_of, py_getitem. by rewrite Hf. }
  cbn [comprehension]. by rewrite Ht, IH.
Qed.

Lemma comprehension_app_raise {A B} (f : A → result B) l1 x l2 ys e :
  comprehension f l1 = inr ys → f x = inl e →
  comprehension f (l1 ++ x :: l2) = inl e.
Proof.
  revert ys. induction l1 as [|y l1 IH]; intros ys H1 Hx; simpl.
  - by rewrite Hx.
  - simpl in H1. destruct (f y) as [e'|b]; [done|]. simpl in *.
    destruct (comprehension f l1) as [e'|ys']; [done|].
    by rewrite (IH ys').
Qed.

Lemma fda_request_inj m m' : fda_request m = fda_request m' → m = m'.
Proof.
  intros [= E]. rewrite !str_app_nil_l in E. by apply str_app_inj_r in E.
Qed.

Lemma medication_names_inj m m' :
  m ∈ MEDICATION_TERMS → m' ∈ MEDICATION_TERMS →
  fda_request (capitalize m) = fda_request (capitalize m') → m = m'.
Proof.
  assert (Forall (λ m, lower (capitalize m) = m) MEDICATION_TERMS) as Hround
    by (by repeat constructor).
  rewrite Forall_forall in Hround.
  intros Hm Hm' E%fda_request_inj.
  by rewrite <- (Hround m Hm), <- (Hround m' Hm'), E.
Qed.

Section Run.
Context {Rec W : Type}.
Variable sf_read : list byte → result (list (list byte) * Z).
Variable KaldiRecognizer : Z → result Rec.
Variable AcceptWaveform : Rec → list byte → result (bool * Rec).
Variable Result : Rec → result (string * Rec).
Variable FinalResult : Rec → result (string * Rec).
Variable json_loads : string → result json.
Variable requests_get : request → W → result response * W.

Lemma requests_analysis text w :
  requests (log (analysis requests_get text w))
  = map (λ med, fda_request (capitalize med)) (extract_entities text).1.
Proof.
  unfold analysis. destruct text as [|c text]; [by vm_compute|].
  cbn [truthy]. rewrite bind_run. unfold log at 1. cbn [fst snd].
  rewrite requests_app.
  destruct (extract_entities (String c text)) as [meds symptoms].
  cbn [fst]. destruct meds as [|m meds]; [done|].
  rewrite bind_run. unfold log at 2. cbn [fst snd].
  rewrite requests_app, requests_for_each. done.
Qed.

Lemma requests_input_section input :
  requests (input_section sf_read KaldiRecognizer AcceptWaveform Result
                          FinalResult json_loads input).2 = [].
Proof.
  destruct input as [[audio|]|entered]; try done.
  unfold input_section, transcribe_audio.
  destruct (_ ≫= join_texts) as [e|transcript]; [done|].
  simpl. by destruct (truthy transcript).
Qed.

Lemma script_run input w :
  let shown := input_section sf_read KaldiRecognizer AcceptWaveform Result
                             FinalResult json_loads input in
  script sf_read KaldiRecognizer AcceptWaveform Result FinalResult json_loads
         requests_get input w
  = (tt, shown.2 ++ log (analysis requests_get shown.1 w),
     world (analysis requests_get shown.1 w)).
Proof.
  unfold script. simpl. destruct (input_section _ _ _ _ _ _ _) as [text l].
  simpl. by destruct (analysis requests_get text w) as [[[] l'] w'].
Qed.
End Run.

End ServiceFacts.

Import ServiceFacts.

(** X6. Whatever the user gives, one run of the script sends exactly one
    request for each medication extracted from the text it analyses, for
    the capitalised name and in the order of the medications: never more
    than seven requests, and never two for the same medication. *)
Theorem script_requests {Rec W}
    (sf_read : list byte → result (list (list byte) * Z))
    (KaldiRecognizer : Z → result Rec)
    (AcceptWaveform : Rec → list byte → result (bool * Rec))
    (Result FinalResult : Rec → result (string * Rec))
    (json_loads : string → result json)
    (requests_get : request → W → result response * W)
    (input : user_input) (w : W) :
  let text := (input_section sf_read KaldiRecognizer AcceptWaveform Result
                             FinalResult json_loads input).1 in
  let sent := requests (log (script sf_read KaldiRecognizer AcceptWaveform
                                    Result FinalResult json_loads
                                    requests_get input w)) in
  sent = map (λ med, fda_request (capitalize med)) (extract_entities text).1
  ∧ length sent ≤ 7
  ∧ NoDup sent.
Proof.
  intros text sent.
  assert (sent = map (λ med, fda_request (capitalize med))
                     (extract_entities text).1) as ->.
  { subst sent text. rewrite script_run. unfold log at 1. simpl.
    by rewrite requests_app, requests_input_section, requests_analysis. }
  split; [done|]. split.
  - rewrite length_map. simpl. apply (list_of_set_length_le _ MEDICATION_TERMS).
    intros m Hm.
    by apply (findall_sound MEDICATION_PATTERN medication_terms_nonempty)
      in Hm as [Hm _].
  - apply NoDup_fmap_2_strong; [|apply NoDup_list_of_set].
    intros m m' Hm Hm'. apply medication_names_inj.
    + by apply (found_mentioned MEDICATION_PATTERN text m
                                medication_terms_nonempty).
    + by apply (found_mentioned MEDICATION_PATTERN text m'
                                medication_terms_nonempty).
Qed.

(** X7. When the service answers a query with status 200 and a result list
    whose items each carry a string under "term", the lookup returns those
    strings lowered, in the order received; it logs its one request and
    nothing else, and leaves the world as the request left it. *)
Theorem get_fda_events_terms {W}
    (requests_get : request → W → result response * W)
    (medication : string) (w w' : W)
    (resp : response) (body : json) (items : list json)
    (terms : list string) :
  requests_get (fda_request medication) w = (inr resp, w') →
  status_code resp = 200%Z →
  json_body resp = inr body →
  py_get_default body "results" (JArr []) = inr (JArr items) →
  Forall2 term_row terms items →
  get_fda_events requests_get medication w
  = (map lower terms, [HttpGet (fda_request medication)], w').
Proof.
  intros Hget Hs Hb Hr Hrows. rewrite get_fda_events_run, Hget. simpl.
  unfold read_events. rewrite Hs, Hb. simpl. rewrite Hr. simpl.
  by rewrite (comprehension_term_rows terms items Hrows).
Qed.

Lemma get_fda_events_terms_witness :
  get_fda_events (always aspirin_rows) "Aspirin" tt
  = (["nausea"; "bleeding"; "rash"], [HttpGet (fda_request "Aspirin")], tt).
Proof.
  apply (get_fda_events_terms
           (always aspirin_rows) "Aspirin" tt tt aspirin_rows
           (JObj [("results",
                   JArr [row "NAUSEA"; row "Bleeding"; row "rash"])])
           [row "NAUSEA"; row "Bleeding"; row "rash"]
           ["NAUSEA"; "Bleeding"; "rash"]);
    try reflexivity.
  repeat constructor; eexists; split; reflexivity.
Defined.

(** X8. One item without a "term" spoils the whole answer: when the items
    before it are well formed and it is an object that has no "term", the
    lookup returns the empty list, the terms already read included, and
    shows the [KeyError] of that key. *)
Theorem get_fda_events_missing_term {W}
    (requests_get : request → W → result response * W)
    (medication : string) (w : W)
    (resp : response) (body : json) (good rest : list json)
    (terms : list string) (fields : list (string * json)) :
  (requests_get (fda_request medication) w).1 = inr resp →
  status_code resp = 200%Z →
  json_body resp = inr body →
  py_get_default body "results" (JArr [])
  = inr (JArr (good ++ JObj fields :: rest)) →
  Forall2 term_row terms good →
  lookup_field "term" fields = None →
  value (get_fda_events requests_get medication w) = []
  ∧ diagnostics (log (get_fda_events requests_get medication w))
    = [WithError "FDA API Error: " (KeyError "term")].
Proof.
  intros Hget Hs Hb Hr Hrows Hf. rewrite get_fda_events_run. simpl.
  rewrite Hget. simpl. unfold read_events. rewrite Hs, Hb. simpl.
  rewrite Hr. simpl.
  rewrite (comprehension_app_raise term_of good (JObj fields) rest
             (map lower terms) (KeyError "term")); [done| |].
  - by apply comprehension_term_rows.
  - unfold term_of, py_getitem. by rewrite Hf.
Qed.

Lemma get_fda_events_missing_term_witness :
  let answer :=
    Response 200 (inr (JObj [("results",
      JArr [row "NAUSEA"; JObj [("count", JNum 12)]; row "rash"])])) in
  value (get_fda_events (always answer) "Aspirin" tt) = []
  ∧ diagnostics (log (get_fda_events (always answer) "Aspirin" tt))
    = [WithError "FDA API Error: " (KeyError "term")].
Proof.
  intros answer.
  apply (get_fda_events_missing_term
           (always answer) "Aspirin" tt answer
           (JObj [("results",
                   JArr [row "NAUSEA"; JObj [("count", JNum 12)];
                         row "rash"])])
           [row "NAUSEA"] [row "rash"] ["NAUSEA"] [("count", JNum 12)]);
    try reflexivity.
  repeat constructor; eexists; split; reflexivity.
Defined.

(** X9. With status 200, a JSON object that has no "results" key counts as
    an empty answer: the empty list and no diagnostic.  A JSON document
    that is not an object gives the empty list too, with the
    [AttributeError] of the missing [get] as diagnostic. *)
Theorem get_fda_events_no_results {W}
    (requests_get : request → W → result response * W)
    (medication : string) (w : W) (resp : response) (body : json) :
  (requests_get (fda_request medication) w).1 = inr resp →
  status_code resp = 200%Z →
  json_body resp = inr body →
  (∀ fields, body = JObj fields → lookup_field "results" fields = None →
     value (get_fda_events requests_get medication w) = []
     ∧ diagnostics (log (get_fda_events requests_get medication w)) = [])
  ∧ ((∀ fields, body ≠ JObj fields) →
     value (get_fda_events requests_get medication w) = []
     ∧ diagnostics (log (get_fda_events requests_get medication w))
       = [WithError "FDA API Error: " AttributeError]).
Proof.
  intros Hget Hs Hb. rewrite get_fda_events_run. simpl. rewrite Hget. simpl.
  unfold read_events. rewrite Hs, Hb. simpl. split.
  - intros fields -> Hf. simpl. by rewrite Hf.
  - intros Hbody. destruct body; try done. by destruct (Hbody fields).
Qed.

Lemma get_fda_events_no_results_witness :
  let answer := Response 200 (inr (JObj [("meta", JObj [])])) in
  value (get_fda_events (always answer) "Aspirin" tt) = []
  ∧ diagnostics (log (get_fda_events (always answer) "Aspirin" tt)) = [].
Proof.
  intros answer.
  apply (proj1 (get_fda_events_no_results
                  (always answer) "Aspirin" tt answer
                  (JObj [("meta", JObj [])]) eq_refl eq_refl eq_refl)
               [("meta", JObj [])]);
    reflexivity.
Defined.

(** ** More on the report and the transcriber *)

Module ReportFacts.

Lemma alarm_after_lookup symptoms adverse_events :
  alarm ∈ after_lookup symptoms adverse_events
  ↔ ∃ s, s ∈ symptoms ∧ s ∈ adverse_events.
Proof.
  unfold after_lookup, report_log.
  destruct adverse_events as [|a events].
  { split; [by intros ?%list_elem_of_singleton|].
    by intros (s & _ & ?%elem_of_nil). }
  destruct (cross_reference symptoms (a :: events)) as [|m ms] eqn:E.
  - split.
    + intros [?|[?|?%elem_of_nil]%elem_of_cons]%elem_of_cons; done.
    + intros (s & Hs & Ha).
      assert (s ∈ cross_reference symptoms (a :: events)) as Hin
        by (by apply list_elem_of_filter).
      rewrite E in Hin. by apply elem_of_nil in Hin.
  - split; [|intros _; left].
    intros _. exists m.
    assert (m ∈ cross_reference symptoms (a :: events)) as Hin
      by (rewrite E; left).
    apply list_elem_of_filter in Hin. tauto.
Qed.

Lemma alarm_not_in_lookup {W}
    (requests_get : request → W → result response * W) medication w :
  alarm ∉ log (get_fda_events requests_get medication w).
Proof.
  rewrite get_fda_events_run. simpl.
  destruct (_ ≫= read_events) as [e|events]; simpl.
  - intros [?|[?|?%elem_of_nil]%elem_of_cons]%elem_of_cons; done.
  - by intros ?%list_elem_of_singleton.
Qed.

End ReportFacts.

Import ReportFacts.

(** X10. A medication is flagged exactly when some symptom is among the
    adverse events its lookup returned: the line "Potential adverse
    effects detected" is in what the loop body shows if and only if the
    symptoms and the returned events have a term in common. *)
Theorem alarm_iff_common_term {W}
    (requests_get : request → W → result response * W)
    (symptoms : list string) (med : string) (w : W) :
  alarm ∈ log (analyse_medication requests_get symptoms med w)
  ↔ ∃ s, s ∈ symptoms
         ∧ s ∈ value (get_fda_events requests_get (capitalize med) w).
Proof.
  rewrite analyse_medication_run. unfold log at 1. simpl.
  rewrite elem_of_cons, elem_of_app, alarm_after_lookup.
  pose proof (alarm_not_in_lookup requests_get (capitalize med) w) as Hno.
  split.
  - intros [H|[H|H]]; [done|by destruct Hno|done].
  - intros H. right. by right.
Qed.

Lemma alarm_iff_common_term_witness :
  alarm ∈ log (analyse_medication (always aspirin_rows)
                                  ["headache"; "nausea"] "aspirin" tt).
Proof.
  apply (proj2 (alarm_iff_common_term (always aspirin_rows)
                                      ["headache"; "nausea"] "aspirin" tt)).
  exists "nausea". split; [right; left|vm_compute; left].
Defined.

(** X11. Whatever the service answered, the matches shown for a medication
    are symptoms extracted from the text, in the order of that list, each
    once: terms of the symptom vocabulary that stand as whole words in the
    lowered text, at most eight, and never a term that only the service
    supplied. *)
Theorem matches_are_extracted_symptoms (text : string)
    (adverse_events : list string) :
  let symptoms := (extract_entities text).2 in
  let matches := cross_reference symptoms adverse_events in
  matches `sublist_of` symptoms
  ∧ NoDup matches
  ∧ length matches ≤ 8
  ∧ Forall (λ m, m ∈ SYMPTOM_TERMS ∧ whole_word m (lower text)) matches.
Proof.
  intros symptoms matches.
  assert (matches `sublist_of` symptoms) as Hsub by apply sublist_filter.
  split; [done|]. split; [|split].
  - apply (sublist_NoDup matches symptoms); [apply NoDup_list_of_set|done].
  - etrans; [apply (sublist_length _ _ Hsub)|].
    apply (list_of_set_length_le _ SYMPTOM_TERMS). intros s Hs.
    by apply (findall_sound SYMPTOM_PATTERN symptom_terms_nonempty)
      in Hs as [Hs _].
  - apply Forall_forall. intros m Hm.
    assert (m ∈ symptoms) as Hs by (by apply list_elem_of_filter in Hm as [_ ?]).
    unfold symptoms, extract_entities in Hs. cbn [snd] in Hs.
    rewrite ExtractFacts.elem_of_list_of_set in Hs.
    by apply (findall_sound SYMPTOM_PATTERN symptom_terms_nonempty) in Hs.
Qed.

(** X12. When recognition goes through, the list of results is made of the
    decoded results of the frames that completed an utterance, in the
    order of the frames, followed by the decoded final result of the
    recognizer as the last frame left it: between one result and one more
    than there are frames. *)
Theorem recognition_results_count {Rec}
    (sf_read : list byte → result (list (list byte) * Z))
    (KaldiRecognizer : Z → result Rec)
    (AcceptWaveform : Rec → list byte → result (bool * Rec))
    (Result FinalResult : Rec → result (string * Rec))
    (json_loads : string → result json)
    (audio : list byte) (data : list (list byte)) (samplerate : Z)
    (results : list json) :
  sf_read audio = inr (data, samplerate) →
  recognition_results sf_read KaldiRecognizer AcceptWaveform Result
                      FinalResult json_loads audio = inr results →
  (∃ r0 partials r1 out r2 final,
     KaldiRecognizer samplerate = inr r0
     ∧ Recognition.fed AcceptWaveform Result json_loads r0 data partials r1
     ∧ FinalResult r1 = inr (out, r2)
     ∧ json_loads out = inr final
     ∧ results = partials ++ [final]
     ∧ length partials ≤ length data)
  ∧ 1 ≤ length results ≤ S (length data).
Proof.
  intros Hread H. unfold recognition_results in H. rewrite Hread in H.
  simpl in H. destruct (KaldiRecognizer samplerate) as [e|r0] eqn:Hk; [done|].
  simpl in H.
  destruct (feed_frames _ _ _ r0 data []) as [e|[front r1]] eqn:Hfeed;
    [done|].
  simpl in H. destruct (FinalResult r1) as [e|[out r2]] eqn:Hf; [done|].
  simpl in H. destruct (json_loads out) as [e|final] eqn:Hd; [done|].
  injection H as <-.
  apply feed_frames_inr in Hfeed as (partials & -> & Hfed). simpl.
  pose proof (fed_length _ _ _ _ _ _ _ Hfed) as Hlen.
  split; [by exists r0, partials, r1, out, r2, final|].
  rewrite List.length_app. simpl. lia.
Qed.

Lemma recognition_results_count_witness :
  let results := [JObj [("text", JStr "ok")]; JObj [("text", JStr "ok")];
                  JObj [("text", JStr "")]] in
  recognition_results toy_read toy_recognizer toy_accept toy_result toy_final
                      toy_loads [x01; x02; x03; x04; x05]
  = inr results
  ∧ 1 ≤ length results ≤ 6.
Proof.
  intros results. split; [reflexivity|].
  apply (proj2 (recognition_results_count
                  toy_read toy_recognizer toy_accept toy_result toy_final
                  toy_loads [x01; x02; x03; x04; x05]
                  [[x01]; [x02]; [x03]; [x04]; [x05]] 16000%Z results
                  eq_refl eq_refl)).
Defined.

(** X13. The frame loop does what the recognizer is fed and no more: it
    returns a list exactly when every frame is taken without an
    exception, and the list is then the results so far followed by the
    decoded results of the frames that completed an utterance, in the
    order of the frames; it raises exactly when [AcceptWaveform], [Result]
    or the decoder raises at some frame, with that exception. *)
Theorem feed_frames_refines {Rec}
    (AcceptWaveform : Rec → list byte → result (bool * Rec))
    (Result : Rec → result (string * Rec))
    (json_loads : string → result json)
    (recognizer : Rec) (data : list (list byte)) (results : list json) :
  (∀ results' recognizer',
     feed_frames AcceptWaveform Result json_loads recognizer data results
     = inr (results', recognizer')
     ↔ ∃ new, results' = results ++ new
              ∧ Recognition.fed AcceptWaveform Result json_loads
                                recognizer data new recognizer')
  ∧ (∀ e,
       feed_frames AcceptWaveform Result json_loads recognizer data results
       = inl e
       ↔ Recognition.interrupted AcceptWaveform Result json_loads
                                 recognizer data e).
Proof.
  split.
  - intros results' recognizer'. split; [apply feed_frames_inr|].
    intros (new & -> & Hfed). by apply feed_frames_fed.
  - intros e. split; [apply feed_frames_inl|].
    intros H. by apply feed_frames_interrupted.
Qed.

Lemma feed_frames_refines_witness :
  feed_frames Recognition.faulty_accept toy_result toy_loads 0
              [[x01]; [x02]; [x03]; [x04]] [JNull]
  = inl (External "decoder crashed")
  ∧ feed_frames toy_accept toy_result toy_loads 0
                [[x01]; [x02]; [x03]] [JNull]
    = inr ([JNull; JObj [("text", JStr "ok")]], 3).
Proof.
  split.
  - apply (proj2 (feed_frames_refines
                    Recognition.faulty_accept toy_result toy_loads 0
                    [[x01]; [x02]; [x03]; [x04]] [JNull])).
    eapply Recognition.interrupted_after_silent; [reflexivity|].
    eapply Recognition.interrupted_after_utterance; [reflexivity..|].
    apply Recognition.interrupted_accept. reflexivity.
  - apply (proj1 (feed_frames_refines
                    toy_accept toy_result toy_loads 0
                    [[x01]; [x02]; [x03]] [JNull])).
    exists [JObj [("text", JStr "ok")]]. split; [reflexivity|].
    eapply Recognition.fed_silent; [reflexivity|].
    eapply Recognition.fed_utterance; [reflexivity..|].
    eapply Recognition.fed_silent; [reflexivity|].
    apply Recognition.fed_end.
Defined.

(** ** The warning of the analysis section *)

Module WarningFacts.

Lemma no_warning_after_lookup symptoms adverse_events m :
  StWarning m ∉ after_lookup symptoms adverse_events.
Proof.
  unfold after_lookup, report_log. destruct adverse_events as [|a events].
  { by intros ?%list_elem_of_singleton. }
  destruct (cross_reference symptoms (a :: events)) as [|x xs].
  - intros [?|[?|?%elem_of_nil]%elem_of_cons]%elem_of_cons; done.
  - rewrite !elem_of_app, list_elem_of_fmap.
    intros [?%list_elem_of_singleton
           |[(? & ? & _)|[?|[?|?%elem_of_nil]%elem_of_cons]%elem_of_cons]];
      done.
Qed.

Section Run.
Context {W : Type}.
Variable requests_get : request → W → result response * W.

Lemma no_warning_lookup medication w m :
  StWarning m ∉ log (get_fda_events requests_get medication w).
Proof.
  rewrite get_fda_events_run. simpl.
  destruct (_ ≫= read_events) as [e|events]; simpl.
  - intros [?|[?|?%elem_of_nil]%elem_of_cons]%elem_of_cons; done.
  - by intros ?%list_elem_of_singleton.
Qed.

Lemma no_warning_analyse symptoms med w m :
  StWarning m ∉ log (analyse_medication requests_get symptoms med w).
Proof.
  rewrite analyse_medication_run. unfold log at 1. simpl.
  rewrite elem_of_cons, elem_of_app. intros [?|[H|H]]; [done| |].
  - by apply no_warning_lookup in H.
  - by apply no_warning_after_lookup in H.
Qed.

Lemma no_warning_for_each symptoms meds m : ∀ w,
  StWarning m
  ∉ log (for_each (analyse_medication requests_get symptoms) meds w).
Proof.
  induction meds as [|med meds IH]; intros w.
  { apply not_elem_of_nil. }
  cbn [for_each]. rewrite bind_run. unfold log at 1. cbn [fst snd].
  rewrite elem_of_app. intros [H|H].
  - by apply no_warning_analyse in H.
  - by apply IH in H.
Qed.
End Run.

End WarningFacts.

Import WarningFacts.

(** X15. The warning "No medications detected in the text" is shown
    exactly when the text is not empty and no medication was extracted
    from it, and the analysis section shows no other warning. *)
Theorem no_medications_warning_iff {W}
    (requests_get : request → W → result response * W)
    (text : string) (w : W) :
  (StWarning (Plain "No medications detected in the text")
   ∈ log (analysis requests_get text w)
   ↔ truthy text = true ∧ (extract_entities text).1 = [])
  ∧ (∀ m, StWarning m ∈ log (analysis requests_get text w) →
          m = Plain "No medications detected in the text").
Proof.
  unfold analysis. destruct text as [|c text].
  { split; [split|]; [by intros ?%elem_of_nil|by intros [? _]|].
    by intros m ?%elem_of_nil. }
  cbn [truthy]. rewrite bind_run. unfold log at 1 3 5. cbn [fst snd].
  destruct (extract_entities (String c text)) as [meds symptoms].
  cbn [fst]. destruct meds as [|med meds].
  - split; [split|].
    + done.
    + intros _. right. left.
    + intros m [?|[[= <-]|?%elem_of_nil]%elem_of_cons]%elem_of_cons; done.
  - rewrite bind_run. unfold log at 2 5 8. cbn [fst snd].
    assert (∀ m, StWarning m
                 ∉ [StSpinner "Analyzing..."]
                   ++ [StSubheader "Analysis Results"]
                   ++ log (for_each (analyse_medication requests_get symptoms)
                                    (med :: meds) w)) as Hno.
    { intros m [?|[?|H]%elem_of_cons]%elem_of_cons; [done|done|].
      by apply no_warning_for_each in H. }
    split; [split|].
    + intros H. by apply Hno in H.
    + by intros [_ ?].
    + intros m H. by apply Hno in H.
Qed.

Lemma no_medications_warning_iff_witness :
  StWarning (Plain "No medications detected in the text")
  ∈ log (analysis (always aspirin_rows) "only a cough" tt).
Proof.
  apply (proj1 (no_medications_warning_iff (always aspirin_rows)
                                           "only a cough" tt)).
  split; by vm_compute.
Defined.

(** ** From the flag back to the text *)

Module FlagFacts.

Lemma elem_of_log_for_each {W A} (body : A → prog W unit) e l : ∀ w,
  e ∈ log (for_each body l w) → ∃ x w', x ∈ l ∧ e ∈ log (body x w').
Proof.
  induction l as [|x l IH]; intros w H.
  { by apply elem_of_nil in H. }
  cbn [for_each] in H. rewrite bind_run in H. unfold log at 1 in H.
  cbn [fst snd] in H. apply elem_of_app in H as [H|H].
  - exists x, w. split; [left|done].
  - apply IH in H as (y & w' & Hy & H). exists y, w'. split; [by right|done].
Qed.

Section Run.
Context {Rec W : Type}.
Variable sf_read : list byte → result (list (list byte) * Z).
Variable KaldiRecognizer : Z → result Rec.
Variable AcceptWaveform : Rec → list byte → result (bool * Rec).
Variable Result : Rec → result (string * Rec).
Variable FinalResult : Rec → result (string * Rec).
Variable json_loads : string → result json.
Variable requests_get : request → W → result response * W.

Lemma alarm_analyse symptoms med w :
  alarm ∈ log (analyse_medication requests_get symptoms med w) →
  ∃ s, s ∈ symptoms.
Proof.
  rewrite analyse_medication_run. unfold log at 1. simpl.
  rewrite elem_of_cons, elem_of_app, alarm_after_lookup.
  pose proof (alarm_not_in_lookup requests_get (capitalize med) w) as Hno.
  intros [H|[H|(s & Hs & _)]]; [done|by destruct Hno|by exists s].
Qed.

Lemma alarm_analysis text w :
  alarm ∈ log (analysis requests_get text w) →
  ∃ med sym, med ∈ (extract_entities text).1
             ∧ sym ∈ (extract_entities text).2.
Proof.
  unfold analysis. destruct text as [|c text].
  { by intros ?%elem_of_nil. }
  cbn [truthy]. rewrite bind_run. unfold log at 1. cbn [fst snd].
  destruct (extract_entities (String c text)) as [meds symptoms].
  cbn [fst snd]. destruct meds as [|med meds].
  { intros [?|[?|?%elem_of_nil]%elem_of_cons]%elem_of_cons; done. }
  rewrite bind_run. unfold log at 2. cbn [fst snd].
  intros [?|[?|H]%elem_of_cons]%elem_of_cons; [done|done|].
  apply elem_of_log_for_each in H as (m & w' & Hm & H).
  apply alarm_analyse in H as [s Hs]. by exists m, s.
Qed.

Lemma alarm_not_in_input input :
  alarm ∉ (input_section sf_read KaldiRecognizer AcceptWaveform Result
                         FinalResult json_loads input).2.
Proof.
  destruct input as [[audio|]|entered]; try apply not_elem_of_nil.
  unfold input_section, transcribe_audio.
  destruct (_ ≫= join_texts) as [e|transcript]; cbn [fst snd app].
  - intros [?|[?|?%elem_of_nil]%elem_of_cons]%elem_of_cons; done.
  - destruct (truthy transcript).
    + intros [?|[?|[?|?%elem_of_nil]%elem_of_cons]%elem_of_cons]%elem_of_cons;
        done.
    + by intros ?%list_elem_of_singleton.
Qed.
End Run.

End FlagFacts.

Import FlagFacts.

(** X16. Nothing is flagged unless the text names both: when a run of the
    script shows "Potential adverse effects detected", a term of the
    medication vocabulary and a term of the symptom vocabulary stand as
    whole words in the lowered text it analysed, whatever the service
    answered. *)
Theorem alarm_needs_medication_and_symptom {Rec W}
    (sf_read : list byte → result (list (list byte) * Z))
    (KaldiRecognizer : Z → result Rec)
    (AcceptWaveform : Rec → list byte → result (bool * Rec))
    (Result FinalResult : Rec → result (string * Rec))
    (json_loads : string → result json)
    (requests_get : request → W → result response * W)
    (input : user_input) (w : W) :
  let text := (input_section sf_read KaldiRecognizer AcceptWaveform Result
                             FinalResult json_loads input).1 in
  alarm ∈ log (script sf_read KaldiRecognizer AcceptWaveform Result
                      FinalResult json_loads requests_get input w) →
  ∃ med sym,
    med ∈ MEDICATION_TERMS ∧ whole_word med (lower text)
    ∧ sym ∈ SYMPTOM_TERMS ∧ whole_word sym (lower text).
Proof.
  intros text. rewrite script_run. unfold log at 1. cbn [fst snd].
  rewrite elem_of_app. intros [H|H].
  { by apply alarm_not_in_input in H. }
  apply alarm_analysis in H as (med & sym & Hm & Hs). exists med, sym.
  unfold extract_entities in Hm, Hs. cbn [fst snd] in Hm, Hs.
  rewrite ExtractFacts.elem_of_list_of_set in Hm, Hs.
  apply (findall_sound MEDICATION_PATTERN medication_terms_nonempty)
    in Hm as [? ?].
  apply (findall_sound SYMPTOM_PATTERN symptom_terms_nonempty)
    in Hs as [? ?].
  done.
Qed.

Lemma alarm_needs_medication_and_symptom_witness :
  ∃ med sym,
    med ∈ MEDICATION_TERMS ∧ whole_word med (lower "Aspirin, then nausea")
    ∧ sym ∈ SYMPTOM_TERMS
    ∧ whole_word sym (lower "Aspirin, then nausea").
Proof.
  apply (alarm_needs_medication_and_symptom
           toy_read toy_recognizer toy_accept toy_result toy_final toy_loads
           (always aspirin_rows) (TextInput "Aspirin, then nausea") tt).
  vm_compute. do 4 right. left.
Defined.
